(** * Party Planner API: a shallow embedding of the route handlers

    The development follows the layout of [party_backend/src/api]:
    [models.py] (the four tables), [schemas.py] (request and response
    bodies), [database.py] (the session factory), [deps.py] (password and
    token helpers, the authorization gate) and [main.py] (the handlers).

    A handler is a function from the database to a response and a
    database: the rows a request leaves behind are those of the returned
    database, also when the handler raises. *)

From Stdlib Require Import ZArith List String Ascii Bool Lia.
Import ListNotations.

Local Open Scope string_scope.
Local Open Scope list_scope.
Local Open Scope Z_scope.

(** ** Exceptions and responses *)

(** [HTTPException] is what the handlers raise themselves;
    [IntegrityError] is what [db.commit()] raises when a row breaks a
    [nullable=False] column, which FastAPI answers with a 500. *)
Inductive Exception : Type :=
| HTTPException (status_code : Z) (detail : string)
| IntegrityError.

Inductive Response (A : Type) : Type :=
| Ok (a : A)
| Raise (e : Exception).

Arguments Ok {A} a.
Arguments Raise {A} e.

(** [datetime] values are only stored and returned. *)
Definition datetime : Type := Z.

(** ** models.py *)

Module User.
Record t : Type := mk {
  id : Z;
  username : string;
  email : string;
  hashed_password : string
}.
End User.

Module Event.
Record t : Type := mk {
  id : Z;
  title : string;
  description : option string;
  date : datetime;
  location : string;
  owner_id : Z
}.
End Event.

Module Guest.
Record t : Type := mk {
  id : Z;
  event_id : Z;
  name : string;
  email : string;
  invited_by_user_id : Z;
  responded : bool
}.
End Guest.

Module RSVP.
Record t : Type := mk {
  id : Z;
  event_id : Z;
  user_id : Z;
  status : string
}.
End RSVP.

(** ** schemas.py *)

Module UserCreate.
Record t : Type := mk {
  username : string;
  email : string;
  password : string
}.
End UserCreate.

Module UserOut.
Record t : Type := mk {
  username : string;
  email : string;
  id : Z
}.

(** [orm_mode]: the response body is read off the row, field by field. *)
Definition from_orm (u : User.t) : t :=
  {| username := User.username u; email := User.email u; id := User.id u |}.
End UserOut.

Module OAuth2PasswordRequestForm.
Record t : Type := mk {
  username : string;
  password : string
}.
End OAuth2PasswordRequestForm.

Module Token.
Record t : Type := mk {
  access_token : string;
  token_type : string
}.
End Token.

Module EventCreate.
Record t : Type := mk {
  title : string;
  description : option string;
  date : datetime;
  location : string
}.
End EventCreate.

(** Every field of [EventUpdate] is [Optional] with default [None], and the
    handler reads it with [dict(exclude_unset=True)]: a field is either
    absent from the body ([None] here), or present with value null
    ([Some None]), or present with a value ([Some (Some v)]). *)
Module EventUpdate.
Record t : Type := mk {
  title : option (option string);
  description : option (option string);
  date : option (option datetime);
  location : option (option string)
}.
End EventUpdate.

Module GuestCreate.
Record t : Type := mk {
  name : string;
  email : string
}.
End GuestCreate.

Module RSVPCreate.
Record t : Type := mk {
  status : string
}.
End RSVPCreate.

Module InviteRequest.
Record t : Type := mk {
  guest_emails : list string
}.
End InviteRequest.

(** ** database.py *)

(** The four tables, rows in insertion order, and the next value of each
    primary-key sequence. *)
Record Database : Type := mkDatabase {
  users : list User.t;
  events : list Event.t;
  guests : list Guest.t;
  rsvps : list RSVP.t;
  users_seq : Z;
  events_seq : Z;
  guests_seq : Z;
  rsvps_seq : Z
}.

Record sessionmaker : Type := mkSessionmaker {
  autocommit : bool;
  autoflush : bool
}.

(** [SessionLocal = sessionmaker(autocommit=False, autoflush=False, ...)] *)
Definition SessionLocal : sessionmaker :=
  {| autocommit := false; autoflush := false |}.

(** A handler: the database before, the response and the database after. *)
Definition Handler (A : Type) : Type := Database -> Response A * Database.

(** Primary keys: no two rows of a table share an id, and the sequence is
    ahead of every id handed out. *)
Definition pk_ok (ids : list Z) (next : Z) : Prop :=
  NoDup ids /\ Forall (fun i => i < next) ids.

Definition wf (db : Database) : Prop :=
  pk_ok (map User.id (users db)) (users_seq db) /\
  pk_ok (map Event.id (events db)) (events_seq db) /\
  pk_ok (map Guest.id (guests db)) (guests_seq db) /\
  pk_ok (map RSVP.id (rsvps db)) (rsvps_seq db).

(** Writing one table leaves the other tables and sequences as they are. *)
Definition with_users (db : Database) (rows : list User.t) (next : Z) : Database :=
  {| users := rows; events := events db; guests := guests db; rsvps := rsvps db;
     users_seq := next; events_seq := events_seq db;
     guests_seq := guests_seq db; rsvps_seq := rsvps_seq db |}.

Definition with_events (db : Database) (rows : list Event.t) (next : Z) : Database :=
  {| users := users db; events := rows; guests := guests db; rsvps := rsvps db;
     users_seq := users_seq db; events_seq := next;
     guests_seq := guests_seq db; rsvps_seq := rsvps_seq db |}.

Definition with_guests (db : Database) (rows : list Guest.t) (next : Z) : Database :=
  {| users := users db; events := events db; guests := rows; rsvps := rsvps db;
     users_seq := users_seq db; events_seq := events_seq db;
     guests_seq := next; rsvps_seq := rsvps_seq db |}.

Definition with_rsvps (db : Database) (rows : list RSVP.t) (next : Z) : Database :=
  {| users := users db; events := events db; guests := guests db; rsvps := rows;
     users_seq := users_seq db; events_seq := events_seq db;
     guests_seq := guests_seq db; rsvps_seq := next |}.

(** ** Queries the handlers share *)

(** [db.query(Event).filter(Event.id == event_id, Event.owner_id == user.id).first()] *)
Definition owned_by (event_id : Z) (user : User.t) (e : Event.t) : bool :=
  (Event.id e =? event_id) && (Event.owner_id e =? User.id user).

Definition query_owned_event (event_id : Z) (user : User.t) (db : Database)
  : option Event.t :=
  find (owned_by event_id user) (events db).

(** [db.query(Event).filter(Event.id == event_id).first()] *)
Definition query_event (event_id : Z) (db : Database) : option Event.t :=
  find (fun e => Event.id e =? event_id) (events db).

(** [Guest.event_id == event_id, Guest.email == email] *)
Definition guest_matches (event_id : Z) (email : string) (g : Guest.t) : bool :=
  (Guest.event_id g =? event_id) && String.eqb (Guest.email g) email.

Definition query_guest (event_id : Z) (email : string) (db : Database)
  : option Guest.t :=
  find (guest_matches event_id email) (guests db).

(** [RSVP.event_id == event_id, RSVP.user_id == user.id] *)
Definition rsvp_matches (event_id : Z) (user_id : Z) (r : RSVP.t) : bool :=
  (RSVP.event_id r =? event_id) && (RSVP.user_id r =? user_id).

Definition query_rsvp (event_id : Z) (user_id : Z) (db : Database)
  : option RSVP.t :=
  find (rsvp_matches event_id user_id) (rsvps db).

(** ** Python helpers *)

(** [s.split(sep)] for a one-character separator: the pieces between the
    occurrences of [sep], never an empty list. *)
Fixpoint split (sep : ascii) (s : string) : list string :=
  match s with
  | EmptyString => [EmptyString]
  | String c rest =>
      if Ascii.eqb c sep then EmptyString :: split sep rest
      else match split sep rest with
           | [] => [String c EmptyString]
           | piece :: pieces => String c piece :: pieces
           end
  end.

(** [email.split('@')[0]] *)
Definition email_prefix (email : string) : string :=
  hd EmptyString (split "@"%char email).

(** JSON values of a token payload, and the payload as a dict. *)
Inductive json : Type :=
| JNull
| JInt (z : Z)
| JStr (s : string).

Definition dict : Type := list (string * json).

(** The value stored under [key], if the key is in the dict. *)
Fixpoint dict_lookup (d : dict) (key : string) : option json :=
  match d with
  | [] => None
  | (k, v) :: rest => if String.eqb k key then Some v else dict_lookup rest key
  end.

(** The value of a decimal digit. *)
Definition digit_of (c : ascii) : option Z :=
  let n := Z.of_N (N_of_ascii c) in
  if (48 <=? n) && (n <=? 57) then Some (n - 48) else None.

Fixpoint digits_value (s : string) (acc : Z) : option Z :=
  match s with
  | EmptyString => Some acc
  | String c rest =>
      match digit_of c with
      | None => None
      | Some d => digits_value rest (10 * acc + d)
      end
  end.

(** The integer that a text spells: decimal digits, with an optional
    minus sign in front. *)
Definition integer_of_string (s : string) : option Z :=
  match s with
  | EmptyString => None
  | String c rest =>
      if Ascii.eqb c "-"%char
      then match rest with
           | EmptyString => None
           | _ => option_map Z.opp (digits_value rest 0)
           end
      else digits_value s 0
  end.

(** [User.id == user_id] for the subject read from a token. The column is
    an integer: an integer subject is compared with it as it is, and a
    string subject as the integer it spells (["1"] finds the user with id
    1); a string that spells no integer, like null, matches no row. *)
Definition id_equals (user_id : json) (u : User.t) : bool :=
  match user_id with
  | JInt z => User.id u =? z
  | JStr s =>
      match integer_of_string s with
      | Some z => User.id u =? z
      | None => false
      end
  | JNull => false
  end.

Section Deps.

(** ** The libraries behind deps.py *)

(** [hashlib.sha256(b).hexdigest()], on the encoded password. *)
Variable sha256_hexdigest : string -> string.

(** [os.getenv('JWT_SECRET_KEY', 'temporary_secret')] *)
Variable SECRET_KEY : string.

(** python-jose, [from jose import JWTError, jwt]. Its signing layer
    [jose.jws] is taken as given: [jws_sign] serialises and signs a
    payload; [jws_verify] checks the signature against the key and the
    accepted algorithms and gives the payload back, or fails ([None], a
    [JWSError]). *)
Variable jws_sign : dict -> string -> string -> string.
Variable jws_verify : string -> string -> list string -> option dict.

(** ** deps.py *)

Definition ALGORITHM : string := "HS256".

Definition hash_password (password : string) : string :=
  sha256_hexdigest password.

Definition verify_password (plain_password hashed_password : string) : bool :=
  String.eqb (hash_password plain_password) hashed_password.

(** [jose.jwt._validate_sub], run by [jose.jwt.decode] on the verified
    payload: a payload without ["sub"] passes; a ["sub"] that is present
    must be a string, or [JWTClaimsError("Subject must be a string.")],
    a [JWTError], is raised. *)
Definition _validate_sub (claims : dict) : bool :=
  match dict_lookup claims "sub" with
  | None => true
  | Some (JStr _) => true
  | Some _ => false
  end.

(** [jose.jwt.encode] signs the claims as they are. *)
Definition jwt_encode (claims : dict) (key algorithm : string) : string :=
  jws_sign claims key algorithm.

(** [jose.jwt.decode]: verify the signature, then validate the registered
    claims; either failure is a [JWTError] ([None]). Of the registered
    claims only ["sub"] occurs in the tokens of this program. *)
Definition jwt_decode (token key : string) (algorithms : list string)
  : option dict :=
  match jws_verify token key algorithms with
  | None => None
  | Some claims => if _validate_sub claims then Some claims else None
  end.

Definition create_access_token (data : dict) : string :=
  let to_encode := data in
  jwt_encode to_encode SECRET_KEY ALGORITHM.

Definition credentials_exception : Exception :=
  HTTPException 401 "Could not validate credentials".

(** The authorization gate. *)
Definition get_current_user (token : string) : Handler User.t :=
  fun db =>
    match jwt_decode token SECRET_KEY [ALGORITHM] with
    | None => (Raise credentials_exception, db)
    | Some payload =>
        match dict_lookup payload "sub" with
        | None | Some JNull => (Raise credentials_exception, db)
        | Some user_id =>
            match find (id_equals user_id) (users db) with
            | None => (Raise credentials_exception, db)
            | Some user => (Ok user, db)
            end
        end
    end.

(** ** main.py: auth routes *)

Definition username_or_email_taken (user_data : UserCreate.t) (u : User.t) : bool :=
  String.eqb (User.username u) (UserCreate.username user_data)
  || String.eqb (User.email u) (UserCreate.email user_data).

Definition signup (user_data : UserCreate.t) : Handler User.t :=
  fun db =>
    match find (username_or_email_taken user_data) (users db) with
    | Some existing =>
        (Raise (HTTPException 400 "Username or Email already exists."), db)
    | None =>
        let hashed := hash_password (UserCreate.password user_data) in
        let user := {| User.id := users_seq db;
                       User.username := UserCreate.username user_data;
                       User.email := UserCreate.email user_data;
                       User.hashed_password := hashed |} in
        (Ok user, with_users db (users db ++ [user]) (users_seq db + 1))
    end.

(** The route answers with [response_model=schemas.UserOut]. *)
Definition signup_response (user_data : UserCreate.t) (db : Database)
  : Response UserOut.t :=
  match fst (signup user_data db) with
  | Ok user => Ok (UserOut.from_orm user)
  | Raise e => Raise e
  end.

Definition login (form_data : OAuth2PasswordRequestForm.t) : Handler Token.t :=
  fun db =>
    match find (fun u => String.eqb (User.username u)
                           (OAuth2PasswordRequestForm.username form_data))
               (users db) with
    | None => (Raise (HTTPException 401 "Incorrect username or password"), db)
    | Some user =>
        if negb (verify_password (OAuth2PasswordRequestForm.password form_data)
                                 (User.hashed_password user))
        then (Raise (HTTPException 401 "Incorrect username or password"), db)
        else
          let token := create_access_token [("sub", JInt (User.id user))] in
          (Ok {| Token.access_token := token; Token.token_type := "bearer" |}, db)
    end.

End Deps.

(** ** main.py: event routes *)

Definition event_not_found : Exception := HTTPException 404 "Event not found".

Definition create_event (event_data : EventCreate.t) (user : User.t)
  : Handler Event.t :=
  fun db =>
    let event := {| Event.id := events_seq db;
                    Event.title := EventCreate.title event_data;
                    Event.description := EventCreate.description event_data;
                    Event.date := EventCreate.date event_data;
                    Event.location := EventCreate.location event_data;
                    Event.owner_id := User.id user |} in
    (Ok event, with_events db (events db ++ [event]) (events_seq db + 1)).

Definition get_event (event_id : Z) (user : User.t) : Handler Event.t :=
  fun db =>
    match query_owned_event event_id user db with
    | None => (Raise event_not_found, db)
    | Some event => (Ok event, db)
    end.

(** [setattr(event, field, value)] for the fields of
    [event_update.dict(exclude_unset=True)]: an absent field keeps the
    attribute, a present one overwrites it, also with [None]. *)
Definition setattr {A : Type} (attribute : option A) (update : option (option A))
  : option A :=
  match update with
  | None => attribute
  | Some value => value
  end.

(** [UPDATE events SET ... WHERE events.id = pk] *)
Definition update_row (pk : Z) (event' : Event.t) (e : Event.t) : Event.t :=
  if Event.id e =? pk
  then {| Event.id := Event.id e;
          Event.title := Event.title event';
          Event.description := Event.description event';
          Event.date := Event.date event';
          Event.location := Event.location event';
          Event.owner_id := Event.owner_id e |}
  else e.

Definition update_event (event_id : Z) (event_update : EventUpdate.t)
    (user : User.t) : Handler Event.t :=
  fun db =>
    match query_owned_event event_id user db with
    | None => (Raise event_not_found, db)
    | Some event =>
        let title := setattr (Some (Event.title event))
                             (EventUpdate.title event_update) in
        let description := setattr (Event.description event)
                                   (EventUpdate.description event_update) in
        let date := setattr (Some (Event.date event))
                            (EventUpdate.date event_update) in
        let location := setattr (Some (Event.location event))
                                (EventUpdate.location event_update) in
        (* db.commit(): title, date and location are nullable=False *)
        match title, date, location with
        | Some title, Some date, Some location =>
            let event' := {| Event.id := Event.id event;
                             Event.title := title;
                             Event.description := description;
                             Event.date := date;
                             Event.location := location;
                             Event.owner_id := Event.owner_id event |} in
            (Ok event',
             with_events db (map (update_row (Event.id event) event') (events db))
                         (events_seq db))
        | _, _, _ => (Raise IntegrityError, db)
        end
    end.

(** [db.delete(event)] with [cascade="all, delete-orphan"] on
    [Event.guests] and [Event.rsvps]. *)
Definition delete_event (event_id : Z) (user : User.t) : Handler string :=
  fun db =>
    match query_owned_event event_id user db with
    | None => (Raise event_not_found, db)
    | Some event =>
        let pk := Event.id event in
        (Ok "Event deleted",
         {| users := users db;
            events := filter (fun e => negb (Event.id e =? pk)) (events db);
            guests := filter (fun g => negb (Guest.event_id g =? pk)) (guests db);
            rsvps := filter (fun r => negb (RSVP.event_id r =? pk)) (rsvps db);
            users_seq := users_seq db; events_seq := events_seq db;
            guests_seq := guests_seq db; rsvps_seq := rsvps_seq db |})
    end.

(** ** main.py: guest and invite routes *)

Definition add_guest (event_id : Z) (guest : GuestCreate.t) (user : User.t)
  : Handler Guest.t :=
  fun db =>
    match query_owned_event event_id user db with
    | None => (Raise event_not_found, db)
    | Some event =>
        let new_guest := {| Guest.id := guests_seq db;
                            Guest.event_id := Event.id event;
                            Guest.name := GuestCreate.name guest;
                            Guest.email := GuestCreate.email guest;
                            Guest.invited_by_user_id := User.id user;
                            Guest.responded := false |} in
        (Ok new_guest,
         with_guests db (guests db ++ [new_guest]) (guests_seq db + 1))
    end.

(** The [Guest] object that [invite_guests] builds for an email; its id is
    given by the flush that inserts it. *)
Definition invited_guest (event_id : Z) (user : User.t) (email : string)
    (pk : Z) : Guest.t :=
  {| Guest.id := pk;
     Guest.event_id := event_id;
     Guest.name := email_prefix email;
     Guest.email := email;
     Guest.invited_by_user_id := User.id user;
     Guest.responded := false |}.

(** Flushing the session inserts the pending guests in the order they
    were added; the rows come back with their ids. *)
Fixpoint flush (pending : list (Z -> Guest.t)) (db : Database)
  : list Guest.t * Database :=
  match pending with
  | [] => ([], db)
  | new_guest :: rest =>
      let row := new_guest (guests_seq db) in
      let (rows, db') :=
        flush rest (with_guests db (guests db ++ [row]) (guests_seq db + 1)) in
      (row :: rows, db')
  end.

(** The loop of [invite_guests]. [flushed] and [pending] are, in order, the
    objects of the Python list [guests]: those a flush has inserted and
    those still pending in the session. A query flushes the session first
    only when the session autoflushes. *)
Fixpoint invite_loop (session : sessionmaker) (event_id : Z) (user : User.t)
    (emails : list string) (db : Database)
    (flushed : list Guest.t) (pending : list (Z -> Guest.t))
  : Database * list Guest.t * list (Z -> Guest.t) :=
  match emails with
  | [] => (db, flushed, pending)
  | email :: rest =>
      let '(rows, db1) :=
        if autoflush session then flush pending db else ([], db) in
      let pending1 := if autoflush session then [] else pending in
      let flushed1 := flushed ++ rows in
      match query_guest event_id email db1 with
      | Some guest =>
          invite_loop session event_id user rest db1 flushed1 pending1
      | None =>
          invite_loop session event_id user rest db1 flushed1
                      (pending1 ++ [invited_guest event_id user email])
      end
  end.

Definition invite_guests_in (session : sessionmaker) (event_id : Z)
    (invite_request : InviteRequest.t) (user : User.t)
  : Handler (list Guest.t) :=
  fun db =>
    match query_owned_event event_id user db with
    | None => (Raise event_not_found, db)
    | Some event =>
        let '(db1, flushed, pending) :=
          invite_loop session event_id user
                      (InviteRequest.guest_emails invite_request) db [] [] in
        (* db.commit() *)
        let (rows, db2) := flush pending db1 in
        (Ok (flushed ++ rows), db2)
    end.

(** The handler runs in a session made by [SessionLocal]. *)
Definition invite_guests : Z -> InviteRequest.t -> User.t -> Handler (list Guest.t) :=
  invite_guests_in SessionLocal.

(** ** main.py: RSVP routes *)

(** [UPDATE rsvps SET status = ? WHERE rsvps.id = pk] *)
Definition set_status (pk : Z) (status : string) (r : RSVP.t) : RSVP.t :=
  if RSVP.id r =? pk
  then {| RSVP.id := RSVP.id r; RSVP.event_id := RSVP.event_id r;
          RSVP.user_id := RSVP.user_id r; RSVP.status := status |}
  else r.

Definition rsvp_to_event (event_id : Z) (rsvp : RSVPCreate.t) (user : User.t)
  : Handler RSVP.t :=
  fun db =>
    match query_event event_id db with
    | None => (Raise event_not_found, db)
    | Some event =>
        let guest := query_guest event_id (User.email user) db in
        if match guest with None => true | Some _ => false end
           && negb (Event.owner_id event =? User.id user)
        then (Raise (HTTPException 403 "Must be invited or owner"), db)
        else
          match query_rsvp event_id (User.id user) db with
          | None =>
              let rsvp_obj := {| RSVP.id := rsvps_seq db;
                                 RSVP.event_id := event_id;
                                 RSVP.user_id := User.id user;
                                 RSVP.status := RSVPCreate.status rsvp |} in
              (Ok rsvp_obj,
               with_rsvps db (rsvps db ++ [rsvp_obj]) (rsvps_seq db + 1))
          | Some rsvp_obj =>
              let rsvp_obj' := {| RSVP.id := RSVP.id rsvp_obj;
                                  RSVP.event_id := RSVP.event_id rsvp_obj;
                                  RSVP.user_id := RSVP.user_id rsvp_obj;
                                  RSVP.status := RSVPCreate.status rsvp |} in
              (Ok rsvp_obj',
               with_rsvps db
                 (map (set_status (RSVP.id rsvp_obj) (RSVPCreate.status rsvp))
                      (rsvps db))
                 (rsvps_seq db))
          end
    end.

Definition get_my_rsvp_status (event_id : Z) (user : User.t) : Handler RSVP.t :=
  fun db =>
    match query_rsvp event_id (User.id user) db with
    | None => (Raise (HTTPException 404 "RSVP not found"), db)
    | Some rsvp => (Ok rsvp, db)
    end.

(** The rows of a table that a query's filter selects. *)
Definition guest_rows (event_id : Z) (email : string) (db : Database)
  : list Guest.t :=
  filter (guest_matches event_id email) (guests db).

Definition rsvp_rows (event_id : Z) (user_id : Z) (db : Database)
  : list RSVP.t :=
  filter (rsvp_matches event_id user_id) (rsvps db).

(** ** main.py: the listing routes *)

(** [Event.owner_id == user.id] *)
Definition owner_is (user : User.t) (e : Event.t) : bool :=
  Event.owner_id e =? User.id user.

(** [db.query(Event).filter(...).offset(skip).limit(limit).all()], for a
    skip and a limit that are not negative; what a negative one does is
    the engine's business and outside this model. *)
Definition list_events (skip limit : Z) (user : User.t)
  : Handler (list Event.t) :=
  fun db =>
    (Ok (firstn (Z.to_nat limit)
           (skipn (Z.to_nat skip) (filter (owner_is user) (events db)))),
     db).

(** [Guest.event_id == event_id] *)
Definition guest_of (event_id : Z) (g : Guest.t) : bool :=
  Guest.event_id g =? event_id.

Definition list_guests (event_id : Z) (user : User.t)
  : Handler (list Guest.t) :=
  fun db =>
    match query_owned_event event_id user db with
    | None => (Raise event_not_found, db)
    | Some event => (Ok (filter (guest_of event_id) (guests db)), db)
    end.

(** ** Stand-ins for the libraries, to run the handlers on examples *)

(** A digest that tags its input. *)
Definition demo_digest (s : string) : string := String.append "sha256:" s.

Fixpoint render_positive (p : positive) : string :=
  match p with
  | xH => EmptyString
  | xO q => String "0"%char (render_positive q)
  | xI q => String "1"%char (render_positive q)
  end.

Fixpoint parse_positive (s : string) : option positive :=
  match s with
  | EmptyString => Some xH
  | String c rest =>
      match parse_positive rest with
      | None => None
      | Some q =>
          if Ascii.eqb c "0"%char then Some (xO q)
          else if Ascii.eqb c "1"%char then Some (xI q)
          else None
      end
  end.

Definition render_Z (z : Z) : string :=
  match z with
  | Z0 => "z"
  | Zpos p => String "p"%char (render_positive p)
  | Zneg p => String "n"%char (render_positive p)
  end.

Definition parse_Z (s : string) : option Z :=
  match s with
  | EmptyString => None
  | String c rest =>
      if Ascii.eqb c "z"%char then
        match rest with EmptyString => Some 0 | _ => None end
      else if Ascii.eqb c "p"%char then option_map Zpos (parse_positive rest)
      else if Ascii.eqb c "n"%char then option_map Zneg (parse_positive rest)
      else None
  end.

(** [strip_prefix p s] is the rest of [s] after [p], when [s] starts with [p]. *)
Fixpoint strip_prefix (p s : string) : option string :=
  match p with
  | EmptyString => Some s
  | String a p' =>
      match s with
      | EmptyString => None
      | String b s' => if Ascii.eqb a b then strip_prefix p' s' else None
      end
  end.

(** A signed token that spells out its key and its subject: an integer
    subject after a hash sign, a string subject after a dollar sign. *)
Definition demo_sign (claims : dict) (key algorithm : string) : string :=
  String.append key
    (match dict_lookup claims "sub" with
     | Some (JInt z) => String "#"%char (render_Z z)
     | Some (JStr s) => String "$"%char s
     | _ => "?"
     end).

Definition demo_verify (token key : string) (algorithms : list string)
  : option dict :=
  match strip_prefix key token with
  | Some (String c rest) =>
      if Ascii.eqb c "#"%char
      then option_map (fun z => [("sub", JInt z)]) (parse_Z rest)
      else if Ascii.eqb c "$"%char
      then Some [("sub", JStr rest)]
      else None
  | _ => None
  end.

Definition demo_key : string := "temporary_secret".

(** ** Example data *)

Definition alice : User.t :=
  {| User.id := 1; User.username := "alice"; User.email := "alice@x.com";
     User.hashed_password := demo_digest "secret1" |}.

Definition bob : User.t :=
  {| User.id := 2; User.username := "bob"; User.email := "bob@x.com";
     User.hashed_password := demo_digest "hunter22" |}.

Definition carol : User.t :=
  {| User.id := 3; User.username := "carol"; User.email := "carol@x.com";
     User.hashed_password := demo_digest "letmein" |}.

Definition party : Event.t :=
  {| Event.id := 1; Event.title := "Party"; Event.description := None;
     Event.date := 1767225600; Event.location := "Home"; Event.owner_id := 1 |}.

Definition picnic : Event.t :=
  {| Event.id := 2; Event.title := "Picnic"; Event.description := Some "Bring food";
     Event.date := 1769904000; Event.location := "Park"; Event.owner_id := 2 |}.

Definition bob_at_party : Guest.t :=
  {| Guest.id := 1; Guest.event_id := 1; Guest.name := "bob";
     Guest.email := "bob@x.com"; Guest.invited_by_user_id := 1;
     Guest.responded := false |}.

(** Three users and two events; nobody is invited yet. *)
Definition db_events : Database :=
  {| users := [alice; bob; carol]; events := [party; picnic];
     guests := []; rsvps := [];
     users_seq := 4; events_seq := 3; guests_seq := 1; rsvps_seq := 1 |}.

(** The same, after alice invited bob to her party. *)
Definition db_invited : Database :=
  {| users := [alice; bob; carol]; events := [party; picnic];
     guests := [bob_at_party]; rsvps := [];
     users_seq := 4; events_seq := 3; guests_seq := 2; rsvps_seq := 1 |}.

(** A decision procedure for distinct keys. *)
Fixpoint distinct (l : list Z) : bool :=
  match l with
  | [] => true
  | x :: rest => negb (existsb (Z.eqb x) rest) && distinct rest
  end.

(** ** Predicates of the statements *)

(** Some user already has the requested username or the requested email. *)
Definition username_or_email_exists (user_data : UserCreate.t) (db : Database)
  : Prop :=
  exists u, In u (users db) /\
            (User.username u = UserCreate.username user_data \/
             User.email u = UserCreate.email user_data).

(** The request sets no [nullable=False] column of [events] to null. *)
Definition no_null_for_required (event_update : EventUpdate.t) : Prop :=
  EventUpdate.title event_update <> Some None /\
  EventUpdate.date event_update <> Some None /\
  EventUpdate.location event_update <> Some None.

(** What a field holds after a partial update: its prior value when the
    request leaves it out, the requested value otherwise. *)
Definition after_update {A : Type} (prior : A) (request : option (option A))
    (now : A) : Prop :=
  match request with
  | None => now = prior
  | Some value => value = Some now
  end.

(** The caller is a guest of the event: some guest row of the event has
    the caller's email. *)
Definition invited (event_id : Z) (user : User.t) (db : Database) : Prop :=
  exists g, In g (guests db) /\ Guest.event_id g = event_id /\
            Guest.email g = User.email user.

Definition must_be_invited_or_owner : Exception :=
  HTTPException 403 "Must be invited or owner".

(** No guest row of the event has the email yet. *)
Definition is_new (event_id : Z) (db : Database) (email : string) : bool :=
  match query_guest event_id email db with
  | None => true
  | Some _ => false
  end.

(** The rows that pending guests become when they are inserted from
    sequence value [next] on. *)
Fixpoint numbered (pending : list (Z -> Guest.t)) (next : Z) : list Guest.t :=
  match pending with
  | [] => []
  | new_guest :: rest => new_guest next :: numbered rest (next + 1)
  end.

(** A session like [SessionLocal], but with autoflush on. *)
Definition autoflushing : sessionmaker :=
  {| autocommit := false; autoflush := true |}.

(** What one turn of the invite loop amounts to when every query sees the
    guests added before it. *)
Definition invite_one (event_id : Z) (user : User.t) (db : Database)
    (email : string) : Database :=
  if is_new event_id db email
  then snd (flush [invited_guest event_id user email] db)
  else db.

(** At most one RSVP row for every (event, user) pair. *)
Definition one_rsvp_per_pair (db : Database) : Prop :=
  forall event_id user_id,
    (List.length (rsvp_rows event_id user_id db) <= 1)%nat.

(** ** init_db.py and the requests that write *)

(** [Base.metadata.create_all]: four empty tables, sequences at their
    first value. *)
Definition init_db : Database :=
  {| users := []; events := []; guests := []; rsvps := [];
     users_seq := 1; events_seq := 1; guests_seq := 1; rsvps_seq := 1 |}.

(** The writing requests, each with the caller the gate resolved. *)
Inductive Request : Type :=
| Signup (user_data : UserCreate.t)
| CreateEvent (event_data : EventCreate.t) (user : User.t)
| UpdateEvent (event_id : Z) (event_update : EventUpdate.t) (user : User.t)
| DeleteEvent (event_id : Z) (user : User.t)
| AddGuest (event_id : Z) (guest : GuestCreate.t) (user : User.t)
| InviteGuests (event_id : Z) (invite_request : InviteRequest.t) (user : User.t)
| RsvpToEvent (event_id : Z) (rsvp : RSVPCreate.t) (user : User.t).

(** The database a request leaves behind. *)
Definition serve (sha256_hexdigest : string -> string) (db : Database)
    (request : Request) : Database :=
  match request with
  | Signup user_data => snd (signup sha256_hexdigest user_data db)
  | CreateEvent event_data user => snd (create_event event_data user db)
  | UpdateEvent event_id event_update user =>
      snd (update_event event_id event_update user db)
  | DeleteEvent event_id user => snd (delete_event event_id user db)
  | AddGuest event_id guest user => snd (add_guest event_id guest user db)
  | InviteGuests event_id invite_request user =>
      snd (invite_guests event_id invite_request user db)
  | RsvpToEvent event_id rsvp user => snd (rsvp_to_event event_id rsvp user db)
  end.

(** The databases that requests served one after the other can produce. *)
Definition reachable (sha256_hexdigest : string -> string) (db : Database)
  : Prop :=
  exists requests, db = fold_left (serve sha256_hexdigest) requests init_db.

(** No two users share a username, and no two share an email. *)
Definition unique_credentials (db : Database) : Prop :=
  NoDup (map User.username (users db)) /\
  NoDup (map User.email (users db)).

(** Every guest row and every RSVP row belongs to an event of the table. *)
Definition no_dangling_rows (db : Database) : Prop :=
  (forall g, In g (guests db) ->
             exists e, In e (events db) /\ Event.id e = Guest.event_id g) /\
  (forall r, In r (rsvps db) ->
             exists e, In e (events db) /\ Event.id e = RSVP.event_id r).

(** The character does not occur in the string. *)
Fixpoint free_of (c : ascii) (s : string) : Prop :=
  match s with
  | EmptyString => True
  | String a rest => a <> c /\ free_of c rest
  end.

(** * Properties *)

(** ** Lists as tables *)

Lemma find_none_iff {A : Type} (f : A -> bool) (l : list A) :
  find f l = None <-> (forall x, In x l -> f x = false).
Proof.
  split.
  - intros H x Hx. exact (find_none f l H x Hx).
  - induction l as [|a l IH]; intros H; simpl; [reflexivity|].
    rewrite (H a (or_introl eq_refl)). apply IH.
    intros x Hx. apply H. right. exact Hx.
Qed.

Lemma find_hd_filter {A : Type} (f : A -> bool) (l : list A) :
  find f l = hd_error (filter f l).
Proof.
  induction l as [|a l IH]; simpl; [reflexivity|].
  destruct (f a); simpl; [reflexivity | exact IH].
Qed.

Lemma filter_app_one {A : Type} (f : A -> bool) (l : list A) (x : A) :
  filter f (l ++ [x]) = filter f l ++ (if f x then [x] else []).
Proof. rewrite filter_app. reflexivity. Qed.

(** With unique keys, a row is the only one that carries its key. *)
Lemma nodup_key_eq {A : Type} (key : A -> Z) (l : list A) (x y : A) :
  NoDup (map key l) -> In x l -> In y l -> key x = key y -> x = y.
Proof.
  induction l as [|a l IH]; simpl; intros Hnd Hx Hy Hk; [contradiction|].
  inversion Hnd as [|k ks Hnotin Hnd']; subst.
  destruct Hx as [Hx|Hx], Hy as [Hy|Hy]; subst.
  - reflexivity.
  - exfalso. apply Hnotin. rewrite Hk. apply in_map. exact Hy.
  - exfalso. apply Hnotin. rewrite <- Hk. apply in_map. exact Hx.
  - apply IH; assumption.
Qed.

(** With unique keys, rewriting the rows that carry one key rewrites one
    row in place. *)
Lemma map_by_key_in_place {A : Type} (key : A -> Z) (g : A -> A)
    (l : list A) (x : A) :
  NoDup (map key l) -> In x l ->
  exists before after,
    l = before ++ x :: after /\
    map (fun y => if key y =? key x then g y else y) l
    = before ++ g x :: after.
Proof.
  intros Hnd Hx.
  destruct (in_split x l Hx) as (before & after & ->).
  exists before, after. split; [reflexivity|].
  assert (Hother : forall y, In y (before ++ after) -> key y <> key x).
  { intros y Hy Hk.
    rewrite map_app in Hnd. simpl in Hnd.
    apply NoDup_remove_2 in Hnd. apply Hnd.
    rewrite <- map_app, <- Hk. apply in_map. exact Hy. }
  rewrite map_app. simpl. rewrite Z.eqb_refl. f_equal; [|f_equal].
  - rewrite <- (map_id before) at 2. apply map_ext_in.
    intros y Hy. destruct (Z.eqb_spec (key y) (key x)) as [E|_]; [|reflexivity].
    exfalso. apply (Hother y); [apply in_or_app; left; exact Hy | exact E].
  - rewrite <- (map_id after) at 2. apply map_ext_in.
    intros y Hy. destruct (Z.eqb_spec (key y) (key x)) as [E|_]; [|reflexivity].
    exfalso. apply (Hother y); [apply in_or_app; right; exact Hy | exact E].
Qed.

(** ** The owner-scoped lookup *)

Lemma owned_by_true event_id user e :
  owned_by event_id user e = true <->
  Event.id e = event_id /\ Event.owner_id e = User.id user.
Proof.
  unfold owned_by. rewrite andb_true_iff, !Z.eqb_eq. reflexivity.
Qed.

Lemma query_owned_event_some event_id user db e :
  query_owned_event event_id user db = Some e ->
  In e (events db) /\ Event.id e = event_id /\ Event.owner_id e = User.id user.
Proof.
  unfold query_owned_event. intros H.
  destruct (find_some _ _ H) as [Hin Hf].
  apply owned_by_true in Hf. tauto.
Qed.

Lemma query_owned_event_none event_id user db :
  query_owned_event event_id user db = None <->
  (forall e, In e (events db) -> Event.id e = event_id ->
             Event.owner_id e <> User.id user).
Proof.
  unfold query_owned_event. rewrite find_none_iff. split.
  - intros H e Hin Hid Hown.
    specialize (H e Hin). 
    assert (owned_by event_id user e = true) by (apply owned_by_true; tauto).
    congruence.
  - intros H e Hin. destruct (owned_by event_id user e) eqn:E; [|reflexivity].
    apply owned_by_true in E. destruct E as [Hid Hown].
    exfalso. exact (H e Hin Hid Hown).
Qed.

(** The three scoped handlers answer not-found, and write nothing, when
    the scoped lookup finds no row. *)
Lemma scoped_handlers_not_found event_id user db :
  query_owned_event event_id user db = None ->
  get_event event_id user db = (Raise event_not_found, db) /\
  (forall event_update,
      update_event event_id event_update user db = (Raise event_not_found, db)) /\
  delete_event event_id user db = (Raise event_not_found, db).
Proof.
  intros H. unfold get_event, update_event, delete_event. rewrite H.
  repeat split; reflexivity.
Qed.

Lemma scoped_handlers_ok_owned event_id user db :
  ((exists e, fst (get_event event_id user db) = Ok e) \/
   (exists event_update e,
       fst (update_event event_id event_update user db) = Ok e) \/
   (exists msg, fst (delete_event event_id user db) = Ok msg)) ->
  exists e, query_owned_event event_id user db = Some e.
Proof.
  unfold get_event, update_event, delete_event.
  destruct (query_owned_event event_id user db) as [e|].
  - intros _. exists e. reflexivity.
  - simpl. intros [[e H]|[(u & e & H)|[m H]]]; discriminate.
Qed.

(** ** Signup *)

Section SignupProperties.

Variable sha256_hexdigest : string -> string.


Lemma username_or_email_taken_true user_data u :
  username_or_email_taken user_data u = true <->
  User.username u = UserCreate.username user_data \/
  User.email u = UserCreate.email user_data.
Proof.
  unfold username_or_email_taken.
  rewrite orb_true_iff, !String.eqb_eq. reflexivity.
Qed.

Lemma find_taken_none user_data db :
  find (username_or_email_taken user_data) (users db) = None <->
  ~ username_or_email_exists user_data db.
Proof.
  rewrite find_none_iff. unfold username_or_email_exists. split.
  - intros H (u & Hin & Hu). apply username_or_email_taken_true in Hu.
    rewrite (H u Hin) in Hu. discriminate.
  - intros H u Hin.
    destruct (username_or_email_taken user_data u) eqn:E; [|reflexivity].
    exfalso. apply H. exists u. split; [exact Hin|].
    apply username_or_email_taken_true. exact E.
Qed.

(** C3. Signup raises the conflict error (400) exactly when some user
    already has the requested username or the requested email, and then
    writes nothing. Otherwise it succeeds: one row is appended whose
    password column is [hash_password] of the password; what is stored
    depends on the password through that digest only; and the response
    body carries username, email and id, the same for every password. *)
Theorem signup_conflict_iff_exists (user_data : UserCreate.t)
    (db : Database) :
  (signup sha256_hexdigest user_data db
   = (Raise (HTTPException 400 "Username or Email already exists."), db)
   <-> username_or_email_exists user_data db) /\
  (~ username_or_email_exists user_data db ->
   exists user,
     signup sha256_hexdigest user_data db
     = (Ok user, with_users db (users db ++ [user]) (users_seq db + 1)) /\
     User.username user = UserCreate.username user_data /\
     User.email user = UserCreate.email user_data /\
     User.hashed_password user
     = hash_password sha256_hexdigest (UserCreate.password user_data) /\
     signup_response sha256_hexdigest user_data db
     = Ok {| UserOut.username := UserCreate.username user_data;
             UserOut.email := UserCreate.email user_data;
             UserOut.id := User.id user |}) /\
  (forall password',
      let user_data' := {| UserCreate.username := UserCreate.username user_data;
                           UserCreate.email := UserCreate.email user_data;
                           UserCreate.password := password' |} in
      signup_response sha256_hexdigest user_data' db
      = signup_response sha256_hexdigest user_data db /\
      (hash_password sha256_hexdigest password'
       = hash_password sha256_hexdigest (UserCreate.password user_data) ->
       signup sha256_hexdigest user_data' db
       = signup sha256_hexdigest user_data db)).
Proof.
  pose proof (find_taken_none user_data db) as Hnone.
  repeat split.
  - unfold signup.
    destruct (find (username_or_email_taken user_data) (users db)) as [u|] eqn:E.
    + intros _. destruct (find_some _ _ E) as [Hin Hu].
      exists u. split; [exact Hin|].
      apply username_or_email_taken_true. exact Hu.
    + discriminate.
  - intros Hex. unfold signup.
    destruct (find (username_or_email_taken user_data) (users db)) as [u|] eqn:E.
    + reflexivity.
    + exfalso. apply (proj1 Hnone); [reflexivity | exact Hex].
  - intros Hnew. apply Hnone in Hnew.
    unfold signup_response, signup. rewrite Hnew. simpl.
    eexists. repeat split; reflexivity.
  - unfold signup_response, signup, username_or_email_taken. simpl.
    destruct (find _ (users db)); reflexivity.
  - intros Hdigest.
    unfold signup, username_or_email_taken. simpl.
    destruct (find _ (users db)); [reflexivity|].
    rewrite Hdigest. reflexivity.
Qed.

End SignupProperties.

(** ** Event routes: ownership scoping *)

(** C2. For an authenticated caller: get, update and delete answer
    not-found and leave the database as it was, both for an existing
    event whose owner is not the caller and for an id that no event has;
    whenever one of them succeeds, the event with that id is owned by the
    caller. *)
Theorem event_ownership_scoping (db : Database) (user : User.t) :
  NoDup (map Event.id (events db)) ->
  (forall E, In E (events db) -> Event.owner_id E <> User.id user ->
     get_event (Event.id E) user db = (Raise event_not_found, db) /\
     (forall event_update,
         update_event (Event.id E) event_update user db
         = (Raise event_not_found, db)) /\
     delete_event (Event.id E) user db = (Raise event_not_found, db)) /\
  (forall event_id,
     (forall E, In E (events db) -> Event.id E <> event_id) ->
     get_event event_id user db = (Raise event_not_found, db) /\
     (forall event_update,
         update_event event_id event_update user db
         = (Raise event_not_found, db)) /\
     delete_event event_id user db = (Raise event_not_found, db)) /\
  (forall event_id,
     ((exists e, fst (get_event event_id user db) = Ok e) \/
      (exists event_update e,
          fst (update_event event_id event_update user db) = Ok e) \/
      (exists msg, fst (delete_event event_id user db) = Ok msg)) ->
     exists E, In E (events db) /\ Event.id E = event_id /\
               Event.owner_id E = User.id user).
Proof.
  intros Hnd. split; [|split].
  - intros E Hin Hown. apply scoped_handlers_not_found.
    apply query_owned_event_none. intros e He Hid Howner.
    assert (e = E) by (eapply nodup_key_eq; eauto). subst e. contradiction.
  - intros event_id Hnone. apply scoped_handlers_not_found.
    apply query_owned_event_none. intros e He Hid _. exact (Hnone e He Hid).
  - intros event_id Hok.
    destruct (scoped_handlers_ok_owned event_id user db Hok) as [E HE].
    exists E. apply query_owned_event_some. exact HE.
Qed.

Lemma query_owned_event_found (db : Database) (user : User.t) (event : Event.t) :
  NoDup (map Event.id (events db)) ->
  In event (events db) ->
  Event.owner_id event = User.id user ->
  query_owned_event (Event.id event) user db = Some event.
Proof.
  intros Hnd Hin Hown.
  destruct (query_owned_event (Event.id event) user db) as [e|] eqn:E.
  - apply query_owned_event_some in E. destruct E as (He & Hid & _).
    f_equal. eapply nodup_key_eq; eauto.
  - exfalso.
    exact (proj1 (query_owned_event_none _ _ _) E event Hin eq_refl Hown).
Qed.

(** ** Event routes: partial update *)

(** C8, amended. For an event owned by the caller and a request that sets
    none of title, date, location to null, update succeeds; a field
    present in the request holds the requested value, a field absent from
    it, the id and the owner_id hold their prior values; the row is
    rewritten in place and nothing else in any table (nor any sequence)
    changes. *)
Theorem update_event_partial (db : Database) (user : User.t)
    (event : Event.t) (event_update : EventUpdate.t) :
  NoDup (map Event.id (events db)) ->
  In event (events db) ->
  Event.owner_id event = User.id user ->
  no_null_for_required event_update ->
  exists event' before after,
    update_event (Event.id event) event_update user db
    = (Ok event',
       with_events db (before ++ event' :: after) (events_seq db)) /\
    events db = before ++ event :: after /\
    Event.id event' = Event.id event /\
    Event.owner_id event' = Event.owner_id event /\
    after_update (Event.title event) (EventUpdate.title event_update)
                 (Event.title event') /\
    Event.description event'
    = match EventUpdate.description event_update with
      | None => Event.description event
      | Some value => value
      end /\
    after_update (Event.date event) (EventUpdate.date event_update)
                 (Event.date event') /\
    after_update (Event.location event) (EventUpdate.location event_update)
                 (Event.location event').
Proof.
  intros Hnd Hin Hown (Htitle & Hdate & Hlocation).
  unfold update_event.
  rewrite (query_owned_event_found db user event Hnd Hin Hown).
  destruct event_update as [t d dt l]; simpl in *.
  assert (Ht : exists t', setattr (Some (Event.title event)) t = Some t' /\
                          after_update (Event.title event) t t').
  { destruct t as [[v|]|]; simpl; eauto; congruence. }
  assert (Hdt : exists dt', setattr (Some (Event.date event)) dt = Some dt' /\
                            after_update (Event.date event) dt dt').
  { destruct dt as [[v|]|]; simpl; eauto; congruence. }
  assert (Hl : exists l', setattr (Some (Event.location event)) l = Some l' /\
                          after_update (Event.location event) l l').
  { destruct l as [[v|]|]; simpl; eauto; congruence. }
  destruct Ht as (t' & -> & Ht), Hdt as (dt' & -> & Hdt), Hl as (l' & -> & Hl).
  set (event' := {| Event.id := Event.id event; Event.title := t';
                    Event.description := setattr (Event.description event) d;
                    Event.date := dt'; Event.location := l';
                    Event.owner_id := Event.owner_id event |}).
  destruct (map_by_key_in_place Event.id
              (fun e => {| Event.id := Event.id e;
                           Event.title := Event.title event';
                           Event.description := Event.description event';
                           Event.date := Event.date event';
                           Event.location := Event.location event';
                           Event.owner_id := Event.owner_id e |})
              (events db) event Hnd Hin)
    as (before & after & Hsplit & Hmap).
  exists event', before, after.
  repeat split; try assumption; try reflexivity.
  f_equal. f_equal. exact Hmap.
Qed.

(** C8, as stated, fails when a required field is present with null:
    asking to set the title of alice's party to null changes nothing and
    raises instead. *)
Lemma update_event_null_title_rejected :
  In party (events db_events) /\
  Event.owner_id party = User.id alice /\
  update_event (Event.id party)
    {| EventUpdate.title := Some None; EventUpdate.description := None;
       EventUpdate.date := None; EventUpdate.location := None |}
    alice db_events
  = (Raise IntegrityError, db_events).
Proof. split; [left; reflexivity | split; reflexivity]. Qed.

(** ** RSVP routes *)

Lemma query_event_some event_id db e :
  query_event event_id db = Some e -> In e (events db) /\ Event.id e = event_id.
Proof.
  unfold query_event. intros H. destruct (find_some _ _ H) as [Hin Hid].
  split; [exact Hin | apply Z.eqb_eq; exact Hid].
Qed.

Lemma query_event_none event_id db :
  query_event event_id db = None <->
  (forall e, In e (events db) -> Event.id e <> event_id).
Proof.
  unfold query_event. rewrite find_none_iff. split.
  - intros H e Hin. apply Z.eqb_neq. exact (H e Hin).
  - intros H e Hin. apply Z.eqb_neq. exact (H e Hin).
Qed.

Lemma query_event_found db event :
  NoDup (map Event.id (events db)) -> In event (events db) ->
  query_event (Event.id event) db = Some event.
Proof.
  intros Hnd Hin.
  destruct (query_event (Event.id event) db) as [e|] eqn:E.
  - apply query_event_some in E. destruct E as [He Hid].
    f_equal. eapply nodup_key_eq; eauto.
  - exfalso. exact (proj1 (query_event_none _ _) E event Hin eq_refl).
Qed.

Lemma guest_matches_true event_id email g :
  guest_matches event_id email g = true <->
  Guest.event_id g = event_id /\ Guest.email g = email.
Proof.
  unfold guest_matches. rewrite andb_true_iff, Z.eqb_eq, String.eqb_eq.
  reflexivity.
Qed.

Lemma query_guest_invited event_id user db :
  (exists g, query_guest event_id (User.email user) db = Some g) <->
  invited event_id user db.
Proof.
  unfold query_guest, invited. split.
  - intros [g H]. destruct (find_some _ _ H) as [Hin Hm].
    apply guest_matches_true in Hm. exists g. tauto.
  - intros (g & Hin & Hev & Hemail).
    destruct (find (guest_matches event_id (User.email user)) (guests db))
      as [g'|] eqn:E; [exists g'; reflexivity|].
    exfalso. pose proof (find_none _ _ E g Hin) as Hg.
    assert (guest_matches event_id (User.email user) g = true)
      by (apply guest_matches_true; tauto).
    congruence.
Qed.

(** What the handler answers, by its three lookups. *)
Lemma rsvp_to_event_not_found event_id rsvp user db :
  query_event event_id db = None ->
  rsvp_to_event event_id rsvp user db = (Raise event_not_found, db).
Proof. intros H. unfold rsvp_to_event. rewrite H. reflexivity. Qed.

Lemma rsvp_to_event_forbidden event_id rsvp user db event :
  query_event event_id db = Some event ->
  Event.owner_id event <> User.id user ->
  ~ invited event_id user db ->
  rsvp_to_event event_id rsvp user db = (Raise must_be_invited_or_owner, db).
Proof.
  intros Hev Hown Hinv. unfold rsvp_to_event. rewrite Hev.
  destruct (query_guest event_id (User.email user) db) as [g|] eqn:Hg.
  - exfalso. apply Hinv. apply query_guest_invited. exists g. exact Hg.
  - apply Z.eqb_neq in Hown. rewrite Hown. reflexivity.
Qed.

Lemma rsvp_to_event_allowed event_id rsvp user db event :
  query_event event_id db = Some event ->
  Event.owner_id event = User.id user \/ invited event_id user db ->
  exists r db', rsvp_to_event event_id rsvp user db = (Ok r, db').
Proof.
  intros Hev Hallowed. unfold rsvp_to_event. rewrite Hev.
  assert (Hcond : match query_guest event_id (User.email user) db with
                  | None => true | Some _ => false end
                  && negb (Event.owner_id event =? User.id user) = false).
  { destruct Hallowed as [Hown|Hinv].
    - apply Z.eqb_eq in Hown. rewrite Hown. apply andb_false_r.
    - apply query_guest_invited in Hinv. destruct Hinv as [g ->]. reflexivity. }
  rewrite Hcond.
  destruct (query_rsvp event_id (User.id user) db); eauto.
Qed.

(** C6. For an existing event, submitting an RSVP succeeds exactly when
    the caller owns the event or is invited to it by email; a caller who
    is neither gets the permission error (403) and the database is as it
    was, so no RSVP row is created. *)
Theorem rsvp_requires_owner_or_guest (db : Database) (user : User.t)
    (event : Event.t) (rsvp : RSVPCreate.t) :
  NoDup (map Event.id (events db)) ->
  In event (events db) ->
  ((exists r db', rsvp_to_event (Event.id event) rsvp user db = (Ok r, db'))
   <-> Event.owner_id event = User.id user \/
       invited (Event.id event) user db) /\
  (Event.owner_id event <> User.id user ->
   ~ invited (Event.id event) user db ->
   rsvp_to_event (Event.id event) rsvp user db
   = (Raise must_be_invited_or_owner, db)).
Proof.
  intros Hnd Hin.
  pose proof (query_event_found db event Hnd Hin) as Hev.
  split; [split|].
  - intros (r & db' & Hok).
    destruct (Z.eq_dec (Event.owner_id event) (User.id user)) as [Hown|Hown];
      [left; exact Hown|].
    right.
    destruct (query_guest (Event.id event) (User.email user) db) as [g|] eqn:Hg.
    + apply query_guest_invited. exists g. exact Hg.
    + exfalso.
      rewrite (rsvp_to_event_forbidden _ rsvp user db event Hev Hown) in Hok;
        [discriminate|].
      intros Hinv. apply query_guest_invited in Hinv.
      destruct Hinv as [g Hg']. congruence.
  - intros Hallowed. exact (rsvp_to_event_allowed _ rsvp user db event Hev Hallowed).
  - intros Hown Hinv. exact (rsvp_to_event_forbidden _ rsvp user db event Hev Hown Hinv).
Qed.

(** C10. The RSVP submit looks the event up by id alone. For an id that
    no event has it answers not-found (404); for an existing event of
    which the caller is neither owner nor guest it answers the permission
    error (403), where the event routes answer not-found; so for a caller
    without rights the answer is not-found exactly when no event has the
    id. *)
Theorem rsvp_reveals_event_existence (db : Database) (user : User.t)
    (rsvp : RSVPCreate.t) :
  NoDup (map Event.id (events db)) ->
  (forall event_id,
     (forall e, In e (events db) -> Event.id e <> event_id) ->
     rsvp_to_event event_id rsvp user db = (Raise event_not_found, db)) /\
  (forall event,
     In event (events db) ->
     Event.owner_id event <> User.id user ->
     ~ invited (Event.id event) user db ->
     rsvp_to_event (Event.id event) rsvp user db
     = (Raise must_be_invited_or_owner, db) /\
     get_event (Event.id event) user db = (Raise event_not_found, db)) /\
  (forall event_id,
     (forall e, In e (events db) -> Event.id e = event_id ->
                Event.owner_id e <> User.id user) ->
     ~ invited event_id user db ->
     (fst (rsvp_to_event event_id rsvp user db) = Raise event_not_found
      <-> (forall e, In e (events db) -> Event.id e <> event_id))).
Proof.
  intros Hnd. split; [|split].
  - intros event_id Hnone. apply rsvp_to_event_not_found.
    apply query_event_none. exact Hnone.
  - intros event Hin Hown Hinv. split.
    + exact (rsvp_to_event_forbidden _ rsvp user db event
               (query_event_found db event Hnd Hin) Hown Hinv).
    + apply scoped_handlers_not_found. apply query_owned_event_none.
      intros e He Hid Howner.
      assert (e = event) by (eapply nodup_key_eq; eauto). subst e.
      contradiction.
  - intros event_id Hothers Hinv. split.
    + intros H404. apply query_event_none.
      destruct (query_event event_id db) as [e|] eqn:E; [|reflexivity].
      exfalso. destruct (query_event_some _ _ _ E) as [He Hid].
      rewrite (rsvp_to_event_forbidden _ rsvp user db e E (Hothers e He Hid) Hinv)
        in H404.
      discriminate.
    + intros Hnone. rewrite rsvp_to_event_not_found; [reflexivity|].
      apply query_event_none. exact Hnone.
Qed.

(** *** Upsert *)

Lemma rsvp_matches_true event_id user_id r :
  rsvp_matches event_id user_id r = true <->
  RSVP.event_id r = event_id /\ RSVP.user_id r = user_id.
Proof.
  unfold rsvp_matches. rewrite andb_true_iff, !Z.eqb_eq. reflexivity.
Qed.

Lemma rsvp_matches_set_status event_id user_id pk status r :
  rsvp_matches event_id user_id (set_status pk status r)
  = rsvp_matches event_id user_id r.
Proof. unfold set_status. destruct (RSVP.id r =? pk); reflexivity. Qed.

Lemma rsvp_rows_set_status event_id user_id pk status (l : list RSVP.t) :
  filter (rsvp_matches event_id user_id) (map (set_status pk status) l)
  = map (set_status pk status) (filter (rsvp_matches event_id user_id) l).
Proof.
  induction l as [|r l IH]; simpl; [reflexivity|].
  rewrite rsvp_matches_set_status.
  destruct (rsvp_matches event_id user_id r); simpl; rewrite IH; reflexivity.
Qed.

Lemma map_id_set_status pk status (l : list RSVP.t) :
  map RSVP.id (map (set_status pk status) l) = map RSVP.id l.
Proof.
  rewrite map_map. apply map_ext. intros r. unfold set_status.
  destruct (RSVP.id r =? pk); reflexivity.
Qed.

Lemma pk_ok_append (ids : list Z) (next : Z) :
  pk_ok ids next -> pk_ok (ids ++ [next]) (next + 1).
Proof.
  intros [Hnd Hlt]. split.
  - apply NoDup_app; [exact Hnd | repeat constructor; simpl; tauto |].
    intros x Hx [Heq|[]].
    rewrite Forall_forall in Hlt. specialize (Hlt x Hx). lia.
  - apply Forall_app. split.
    + eapply Forall_impl; [|exact Hlt]. simpl. intros; lia.
    + repeat constructor. lia.
Qed.

(** The handler's answer when it succeeds, by whether the lookup for the
    (event, user) pair finds a row. *)
Lemma rsvp_to_event_ok_cases event_id rsvp user db r db' :
  rsvp_to_event event_id rsvp user db = (Ok r, db') ->
  match query_rsvp event_id (User.id user) db with
  | None =>
      r = {| RSVP.id := rsvps_seq db; RSVP.event_id := event_id;
             RSVP.user_id := User.id user;
             RSVP.status := RSVPCreate.status rsvp |} /\
      db' = with_rsvps db (rsvps db ++ [r]) (rsvps_seq db + 1)
  | Some r0 =>
      r = {| RSVP.id := RSVP.id r0; RSVP.event_id := RSVP.event_id r0;
             RSVP.user_id := RSVP.user_id r0;
             RSVP.status := RSVPCreate.status rsvp |} /\
      db' = with_rsvps db
              (map (set_status (RSVP.id r0) (RSVPCreate.status rsvp)) (rsvps db))
              (rsvps_seq db)
  end.
Proof.
  unfold rsvp_to_event.
  destruct (query_event event_id db) as [event|]; [|discriminate].
  destruct (match query_guest event_id (User.email user) db with
            | None => true | Some _ => false end
            && negb (Event.owner_id event =? User.id user)); [discriminate|].
  destruct (query_rsvp event_id (User.id user) db) as [r0|];
    intros H; inversion H; subst; split; reflexivity.
Qed.

(** Whether a submit is allowed depends on the events and guests only. *)
Lemma rsvp_to_event_ok_stable event_id rsvp rsvp' user db db1 r :
  rsvp_to_event event_id rsvp user db = (Ok r, db1) ->
  exists r' db', rsvp_to_event event_id rsvp' user db1 = (Ok r', db').
Proof.
  intros Hok. pose proof (rsvp_to_event_ok_cases _ _ _ _ _ _ Hok) as Hcases.
  assert (Hsame : events db1 = events db /\ guests db1 = guests db).
  { destruct (query_rsvp event_id (User.id user) db);
      destruct Hcases as [_ ->]; split; reflexivity. }
  destruct Hsame as [Hev Hg].
  revert Hok. unfold rsvp_to_event, query_event, query_guest.
  rewrite Hev, Hg.
  destruct (find (fun e => Event.id e =? event_id) (events db)) as [event|];
    [|discriminate].
  destruct (match find (guest_matches event_id (User.email user)) (guests db) with
            | None => true | Some _ => false end
            && negb (Event.owner_id event =? User.id user)); [discriminate|].
  intros _. destruct (query_rsvp event_id (User.id user) db1); eauto.
Qed.

(** One successful submit, on a table with unique ids and at most one
    row for the pair. *)
Lemma rsvp_to_event_step event_id rsvp user db r db' :
  pk_ok (map RSVP.id (rsvps db)) (rsvps_seq db) ->
  (List.length (rsvp_rows event_id (User.id user) db) <= 1)%nat ->
  rsvp_to_event event_id rsvp user db = (Ok r, db') ->
  RSVP.status r = RSVPCreate.status rsvp /\
  rsvp_rows event_id (User.id user) db' = [r] /\
  pk_ok (map RSVP.id (rsvps db')) (rsvps_seq db') /\
  match query_rsvp event_id (User.id user) db with
  | None =>
      RSVP.id r = rsvps_seq db /\
      db' = with_rsvps db (rsvps db ++ [r]) (rsvps_seq db + 1)
  | Some r0 =>
      RSVP.id r = RSVP.id r0 /\
      exists before after,
        rsvps db = before ++ r0 :: after /\
        db' = with_rsvps db (before ++ r :: after) (rsvps_seq db)
  end.
Proof.
  intros Hpk Hone Hok.
  pose proof (rsvp_to_event_ok_cases _ _ _ _ _ _ Hok) as Hcases.
  unfold rsvp_rows in *. unfold query_rsvp in *.
  rewrite find_hd_filter in *.
  destruct (filter (rsvp_matches event_id (User.id user)) (rsvps db))
    as [|r0 rest] eqn:Hrows; simpl in Hcases.
  - destruct Hcases as [Hr Hdb]. subst db'. simpl.
    rewrite filter_app_one, Hrows.
    assert (Hm : rsvp_matches event_id (User.id user) r = true).
    { subst r. apply rsvp_matches_true. split; reflexivity. }
    rewrite Hm. rewrite map_app. simpl.
    assert (Hid : RSVP.id r = rsvps_seq db) by (subst r; reflexivity).
    rewrite Hid. repeat split; try reflexivity.
    + subst r. reflexivity.
    + apply pk_ok_append. exact Hpk.
    + apply pk_ok_append. exact Hpk.
  - simpl in Hone. destruct rest as [|r1 rest]; [|simpl in Hone; lia].
    destruct Hcases as [Hr Hdb]. subst db'. simpl.
    rewrite rsvp_rows_set_status, Hrows, map_id_set_status. simpl.
    assert (Hin : In r0 (rsvps db)).
    { assert (In r0 (filter (rsvp_matches event_id (User.id user)) (rsvps db)))
        by (rewrite Hrows; left; reflexivity).
      apply filter_In in H. tauto. }
    assert (Hset : set_status (RSVP.id r0) (RSVPCreate.status rsvp) r0 = r).
    { unfold set_status. rewrite Z.eqb_refl. symmetry. exact Hr. }
    rewrite Hset.
    destruct (map_by_key_in_place RSVP.id
                (fun x => {| RSVP.id := RSVP.id x; RSVP.event_id := RSVP.event_id x;
                             RSVP.user_id := RSVP.user_id x;
                             RSVP.status := RSVPCreate.status rsvp |})
                (rsvps db) r0 (proj1 Hpk) Hin)
      as (before & after & Hsplit & Hmap).
    repeat split.
    + subst r. reflexivity.
    + exact (proj1 Hpk).
    + exact (proj2 Hpk).
    + subst r. reflexivity.
    + exists before, after. split; [exact Hsplit|].
      f_equal. rewrite <- Hr in Hmap. exact Hmap.
Qed.

(** C7. On a table with unique ids and at most one RSVP row for the
    (event, user) pair: a successful submit creates a row with the
    submitted status when the pair has none, and otherwise rewrites the
    status of the existing row in place, keeping its id; after it the pair
    has exactly that one row. A second submit then succeeds too, answers
    with the same row id and the later status, and again leaves exactly
    one row for the pair, in the place of the first. *)
Theorem rsvp_upsert (db : Database) (user : User.t) (event_id : Z)
    (first second : RSVPCreate.t) (r1 : RSVP.t) (db1 : Database) :
  pk_ok (map RSVP.id (rsvps db)) (rsvps_seq db) ->
  (List.length (rsvp_rows event_id (User.id user) db) <= 1)%nat ->
  rsvp_to_event event_id first user db = (Ok r1, db1) ->
  RSVP.status r1 = RSVPCreate.status first /\
  match query_rsvp event_id (User.id user) db with
  | None =>
      RSVP.id r1 = rsvps_seq db /\
      db1 = with_rsvps db (rsvps db ++ [r1]) (rsvps_seq db + 1)
  | Some r0 =>
      RSVP.id r1 = RSVP.id r0 /\
      exists before after,
        rsvps db = before ++ r0 :: after /\
        db1 = with_rsvps db (before ++ r1 :: after) (rsvps_seq db)
  end /\
  rsvp_rows event_id (User.id user) db1 = [r1] /\
  exists r2 db2 before after,
    rsvp_to_event event_id second user db1 = (Ok r2, db2) /\
    RSVP.id r2 = RSVP.id r1 /\
    RSVP.status r2 = RSVPCreate.status second /\
    rsvp_rows event_id (User.id user) db2 = [r2] /\
    rsvps db1 = before ++ r1 :: after /\
    db2 = with_rsvps db1 (before ++ r2 :: after) (rsvps_seq db1).
Proof.
  intros Hpk Hone Hfirst.
  destruct (rsvp_to_event_step _ _ _ _ _ _ Hpk Hone Hfirst)
    as (Hstatus1 & Hrows1 & Hpk1 & Hcase1).
  repeat split; try assumption.
  destruct (rsvp_to_event_ok_stable _ _ second _ _ _ _ Hfirst)
    as (r2 & db2 & Hsecond).
  assert (Hone1 : (List.length (rsvp_rows event_id (User.id user) db1) <= 1)%nat)
    by (rewrite Hrows1; simpl; lia).
  destruct (rsvp_to_event_step _ _ _ _ _ _ Hpk1 Hone1 Hsecond)
    as (Hstatus2 & Hrows2 & _ & Hcase2).
  assert (Hfound : query_rsvp event_id (User.id user) db1 = Some r1).
  { unfold query_rsvp. rewrite find_hd_filter.
    unfold rsvp_rows in Hrows1. rewrite Hrows1. reflexivity. }
  rewrite Hfound in Hcase2.
  destruct Hcase2 as (Hid & before & after & Hsplit & Hdb2).
  exists r2, db2, before, after. repeat split; assumption.
Qed.

(** ** Invite route *)

Lemma numbered_app pending pending' next :
  numbered (pending ++ pending') next
  = numbered pending next
    ++ numbered pending' (next + Z.of_nat (List.length pending)).
Proof.
  revert next. induction pending as [|g pending IH]; intros next; simpl.
  - f_equal. lia.
  - rewrite IH. do 3 f_equal. lia.
Qed.

Lemma numbered_length pending next :
  List.length (numbered pending next) = List.length pending.
Proof.
  revert next. induction pending as [|g pending IH]; intros next; simpl;
    [reflexivity | rewrite IH; reflexivity].
Qed.

(** A flush appends the pending guests, numbered from the sequence. *)
Lemma flush_numbered pending db :
  flush pending db
  = (numbered pending (guests_seq db),
     with_guests db (guests db ++ numbered pending (guests_seq db))
                 (guests_seq db + Z.of_nat (List.length pending))).
Proof.
  revert db. induction pending as [|g pending IH]; intros db.
  - simpl. rewrite app_nil_r, Z.add_0_r. destruct db; reflexivity.
  - cbn [flush]. rewrite IH. cbn [numbered guests guests_seq with_guests].
    unfold with_guests. cbn [users events guests rsvps users_seq events_seq
                             guests_seq rsvps_seq].
    rewrite <- app_assoc. simpl app.
    replace (guests_seq db + 1 + Z.of_nat (List.length pending))
      with (guests_seq db + Z.of_nat (List.length (g :: pending)))
      by (simpl List.length; lia).
    reflexivity.
Qed.

(** Without autoflush the loop never writes: every email is checked
    against the rows the database had before the request. *)
Lemma invite_loop_no_autoflush session event_id user emails db flushed pending :
  autoflush session = false ->
  invite_loop session event_id user emails db flushed pending
  = (db, flushed,
     pending ++ map (invited_guest event_id user)
                    (filter (is_new event_id db) emails)).
Proof.
  intros Hno. revert flushed pending.
  induction emails as [|email emails IH]; intros flushed pending; simpl.
  - rewrite app_nil_r. reflexivity.
  - rewrite Hno. rewrite app_nil_r. unfold is_new at 1.
    destruct (query_guest event_id email db).
    + apply IH.
    + rewrite IH. rewrite <- app_assoc. reflexivity.
Qed.

(** The whole handler, for an event the caller owns. *)
Lemma invite_guests_owned event_id invite_request user db event :
  query_owned_event event_id user db = Some event ->
  let rows :=
    numbered (map (invited_guest event_id user)
                  (filter (is_new event_id db)
                          (InviteRequest.guest_emails invite_request)))
             (guests_seq db) in
  invite_guests event_id invite_request user db
  = (Ok rows,
     with_guests db (guests db ++ rows)
                 (guests_seq db + Z.of_nat (List.length rows))).
Proof.
  intros Hev rows. unfold invite_guests, invite_guests_in. rewrite Hev.
  rewrite invite_loop_no_autoflush by reflexivity.
  rewrite flush_numbered. simpl app. unfold rows.
  rewrite numbered_length. reflexivity.
Qed.

Lemma numbered_invited_emails event_id user emails next :
  map Guest.email (numbered (map (invited_guest event_id user) emails) next)
  = emails.
Proof.
  revert next. induction emails as [|e emails IH]; intros next; simpl;
    [reflexivity | rewrite IH; reflexivity].
Qed.

Lemma numbered_invited_shape event_id user emails next :
  Forall (fun g => Guest.event_id g = event_id /\
                   Guest.name g = email_prefix (Guest.email g) /\
                   Guest.invited_by_user_id g = User.id user /\
                   Guest.responded g = false)
         (numbered (map (invited_guest event_id user) emails) next).
Proof.
  revert next. induction emails as [|e emails IH]; intros next; simpl;
    constructor; [repeat split | apply IH].
Qed.

Lemma numbered_invited_matching event_id user email emails next :
  List.length (filter (guest_matches event_id email)
                 (numbered (map (invited_guest event_id user) emails) next))
  = count_occ string_dec emails email.
Proof.
  revert next. induction emails as [|e emails IH]; intros next; simpl;
    [reflexivity|].
  unfold guest_matches at 1. simpl. rewrite Z.eqb_refl. simpl.
  destruct (string_dec e email) as [->|Hne].
  - rewrite String.eqb_refl. simpl. rewrite IH. reflexivity.
  - apply String.eqb_neq in Hne. rewrite Hne. apply IH.
Qed.

Lemma count_occ_filter (f : string -> bool) (l : list string) (x : string) :
  count_occ string_dec (filter f l) x
  = if f x then count_occ string_dec l x else 0%nat.
Proof.
  induction l as [|a l IH]; simpl; [destruct (f x); reflexivity|].
  destruct (string_dec a x) as [->|Hne].
  - destruct (f x) eqn:E; simpl.
    + destruct (string_dec x x); [|contradiction]. rewrite IH. reflexivity.
    + exact IH.
  - destruct (f a); simpl; [|exact IH].
    destruct (string_dec a x); [contradiction | exact IH].
Qed.

Lemma is_new_iff_no_rows event_id db email :
  is_new event_id db email = true <-> guest_rows event_id email db = [].
Proof.
  unfold is_new, query_guest, guest_rows. rewrite find_hd_filter.
  destruct (filter (guest_matches event_id email) (guests db)); simpl;
    split; congruence.
Qed.

(** The rows of one (event, email) pair after a call: those before it and
    one for each occurrence of the email in the request, if the pair had
    none. *)
Lemma invite_guests_rows event_id invite_request user db event email :
  query_owned_event event_id user db = Some event ->
  List.length (guest_rows event_id email
                 (snd (invite_guests event_id invite_request user db)))
  = (List.length (guest_rows event_id email db)
     + if is_new event_id db email
       then count_occ string_dec (InviteRequest.guest_emails invite_request) email
       else 0)%nat.
Proof.
  intros Hev. rewrite (invite_guests_owned _ invite_request _ _ _ Hev).
  unfold guest_rows. simpl. rewrite filter_app, length_app.
  rewrite numbered_invited_matching, count_occ_filter. reflexivity.
Qed.

(** C9. In a session made by [SessionLocal], which does not autoflush, a
    batch is checked email by email against the rows persisted before the
    request: for an email that has no guest row for the event yet, one
    call creates as many rows as the email has occurrences in the request,
    all of them in the response; a request that repeats the email
    therefore leaves more than one row for the (event, email) pair. *)
Theorem invite_repeated_email_rows (db : Database) (user : User.t)
    (event_id : Z) (event : Event.t) (emails : list string) (email : string) :
  query_owned_event event_id user db = Some event ->
  guest_rows event_id email db = [] ->
  exists rows db',
    invite_guests event_id {| InviteRequest.guest_emails := emails |} user db
    = (Ok rows, db') /\
    List.length (guest_rows event_id email db')
    = count_occ string_dec emails email /\
    List.length (filter (guest_matches event_id email) rows)
    = count_occ string_dec emails email /\
    ((2 <= count_occ string_dec emails email)%nat ->
     (1 < List.length (guest_rows event_id email db'))%nat).
Proof.
  intros Hev Hnone.
  pose proof (invite_guests_rows event_id
                {| InviteRequest.guest_emails := emails |} user db event email Hev)
    as Hrows.
  pose proof (invite_guests_owned event_id
                {| InviteRequest.guest_emails := emails |} user db event Hev)
    as Hcall.
  cbv zeta in Hcall. rewrite Hcall in Hrows.
  cbn [snd InviteRequest.guest_emails] in Hrows, Hcall.
  rewrite Hnone in Hrows.
  rewrite (proj2 (is_new_iff_no_rows event_id db email) Hnone) in Hrows.
  cbn [List.length Nat.add] in Hrows.
  eexists. eexists. split; [exact Hcall|].
  split; [exact Hrows|]. split.
  - cbn [InviteRequest.guest_emails].
    rewrite numbered_invited_matching, count_occ_filter.
    rewrite (proj2 (is_new_iff_no_rows event_id db email) Hnone). reflexivity.
  - intros Hge. rewrite Hrows. lia.
Qed.

(** C5, amended. For an event the caller owns, the response of a batch
    invite is the list of the guests this call created, which are appended
    to the guest table: one record, in request order, for each occurrence
    of an email that had no guest row for the event before the call, named
    after the part of the email before the at sign. An email that already
    had a guest row for the event has no record in the response. *)
Theorem invite_returns_created_guests (db : Database) (user : User.t)
    (event_id : Z) (event : Event.t) (invite_request : InviteRequest.t) :
  query_owned_event event_id user db = Some event ->
  exists rows,
    invite_guests event_id invite_request user db
    = (Ok rows,
       with_guests db (guests db ++ rows)
                   (guests_seq db + Z.of_nat (List.length rows))) /\
    map Guest.email rows
    = filter (is_new event_id db) (InviteRequest.guest_emails invite_request) /\
    Forall (fun g => Guest.event_id g = event_id /\
                     Guest.name g = email_prefix (Guest.email g) /\
                     Guest.invited_by_user_id g = User.id user /\
                     Guest.responded g = false) rows /\
    (forall email,
        In email (InviteRequest.guest_emails invite_request) ->
        (guest_rows event_id email db = [] ->
         exists g, In g rows /\ Guest.email g = email) /\
        (guest_rows event_id email db <> [] ->
         forall g, In g rows -> Guest.email g <> email)).
Proof.
  intros Hev.
  pose proof (invite_guests_owned event_id invite_request user db event Hev)
    as Hcall.
  cbv zeta in Hcall.
  set (rows := numbered
                 (map (invited_guest event_id user)
                      (filter (is_new event_id db)
                              (InviteRequest.guest_emails invite_request)))
                 (guests_seq db)) in *.
  assert (Hemails : map Guest.email rows
                    = filter (is_new event_id db)
                             (InviteRequest.guest_emails invite_request))
    by apply numbered_invited_emails.
  exists rows. split; [exact Hcall|]. split; [exact Hemails|].
  split; [apply numbered_invited_shape|].
  intros email Hin. split.
  - intros Hnone.
    assert (Hmem : In email (map Guest.email rows)).
    { rewrite Hemails. apply filter_In. split; [exact Hin|].
      apply is_new_iff_no_rows. exact Hnone. }
    apply in_map_iff in Hmem. destruct Hmem as (g & Hg & Hgin).
    exists g. split; assumption.
  - intros Hsome g Hg Hemail.
    assert (Hmem : In email (map Guest.email rows))
      by (rewrite <- Hemail; apply in_map; exact Hg).
    rewrite Hemails in Hmem. apply filter_In in Hmem.
    apply Hsome. apply is_new_iff_no_rows. tauto.
Qed.

(** C5, as stated, fails for an email that is already a guest: bob is
    invited to alice's party, and inviting him again answers with an
    empty list. *)
Lemma invite_existing_guest_not_returned :
  exists rows db',
    invite_guests 1 {| InviteRequest.guest_emails := ["bob@x.com"] |}
                  alice db_invited
    = (Ok rows, db') /\
    In "bob@x.com" ["bob@x.com"] /\
    guest_rows 1 "bob@x.com" db_invited = [bob_at_party] /\
    ~ (exists g, In g rows /\ Guest.email g = "bob@x.com").
Proof.
  exists [], db_invited. repeat split.
  - left. reflexivity.
  - intros (g & [] & _).
Qed.

(** What does hold of the (event, email) rows: a persisted guest is
    skipped, and a request without repeated emails adds at most one row. *)
Lemma invite_skips_persisted event_id invite_request user db event email :
  query_owned_event event_id user db = Some event ->
  guest_rows event_id email db <> [] ->
  List.length (guest_rows event_id email
                 (snd (invite_guests event_id invite_request user db)))
  = List.length (guest_rows event_id email db).
Proof.
  intros Hev Hsome. rewrite (invite_guests_rows _ _ _ _ _ _ Hev).
  destruct (is_new event_id db email) eqn:E; [|lia].
  apply is_new_iff_no_rows in E. contradiction.
Qed.

(** X17. A batch without repeated emails leaves exactly one guest row for
    each email it names, provided the (event, email) pair had at most one
    row before: a new email gets its row, a persisted guest is skipped. *)
Lemma invite_distinct_emails_one_row event_id invite_request user db event email :
  query_owned_event event_id user db = Some event ->
  NoDup (InviteRequest.guest_emails invite_request) ->
  In email (InviteRequest.guest_emails invite_request) ->
  (List.length (guest_rows event_id email db) <= 1)%nat ->
  List.length (guest_rows event_id email
                 (snd (invite_guests event_id invite_request user db)))
  = 1%nat.
Proof.
  intros Hev Hnd Hin Hone. rewrite (invite_guests_rows _ _ _ _ _ _ Hev).
  assert (Hocc : count_occ string_dec
                   (InviteRequest.guest_emails invite_request) email = 1%nat).
  { pose proof (proj1 (NoDup_count_occ string_dec _) Hnd email) as Hle.
    pose proof (proj1 (count_occ_In string_dec _ email) Hin) as Hge. lia. }
  destruct (is_new event_id db email) eqn:E.
  - apply is_new_iff_no_rows in E. rewrite E, Hocc. reflexivity.
  - destruct (guest_rows event_id email db) as [|g rest] eqn:Hrows.
    + apply is_new_iff_no_rows in Hrows. congruence.
    + simpl in *. lia.
Qed.

(** C4 fails on a request that names one email twice: nobody is invited
    to alice's party yet, and one call that lists dan twice leaves two
    guest rows for the pair (party, dan). *)
Theorem invite_same_email_twice_two_rows :
  guest_rows 1 "dan@x.com" db_events = [] /\
  guest_rows 1 "dan@x.com"
    (snd (invite_guests 1
            {| InviteRequest.guest_emails := ["dan@x.com"; "dan@x.com"] |}
            alice db_events))
  = [ {| Guest.id := 1; Guest.event_id := 1; Guest.name := "dan";
         Guest.email := "dan@x.com"; Guest.invited_by_user_id := 1;
         Guest.responded := false |};
      {| Guest.id := 2; Guest.event_id := 1; Guest.name := "dan";
         Guest.email := "dan@x.com"; Guest.invited_by_user_id := 1;
         Guest.responded := false |} ].
Proof. split; reflexivity. Qed.

(** The same request in a session that autoflushes: the second lookup
    sees the row of the first, and one row is added. *)
Lemma invite_same_email_twice_autoflush :
  List.length
    (guest_rows 1 "dan@x.com"
       (snd (invite_guests_in autoflushing 1
               {| InviteRequest.guest_emails := ["dan@x.com"; "dan@x.com"] |}
               alice db_events)))
  = 1%nat.
Proof. reflexivity. Qed.

(** With autoflush on, the pending guest is inserted before the next
    lookup, so the loop and the final commit amount to inviting the emails
    one at a time. *)
Lemma invite_loop_autoflush session event_id user emails db flushed pending :
  autoflush session = true ->
  let '(db1, _, pending1) :=
    invite_loop session event_id user emails db flushed pending in
  snd (flush pending1 db1)
  = fold_left (invite_one event_id user) emails (snd (flush pending db)).
Proof.
  intros Hon. revert db flushed pending.
  induction emails as [|email emails IH]; intros db flushed pending.
  - reflexivity.
  - cbn [invite_loop fold_left]. rewrite Hon.
    destruct (flush pending db) as [rows db1] eqn:E. cbn [snd].
    unfold invite_one at 2. unfold is_new.
    destruct (query_guest event_id email db1).
    + exact (IH db1 (flushed ++ rows) []).
    + exact (IH db1 (flushed ++ rows) [invited_guest event_id user email]).
Qed.

Lemma invite_one_rows event_id user db e email :
  guest_rows event_id email (invite_one event_id user db e)
  = guest_rows event_id email db
    ++ (if is_new event_id db e && String.eqb e email
        then [invited_guest event_id user e (guests_seq db)] else []).
Proof.
  unfold invite_one. destruct (is_new event_id db e); simpl.
  - unfold guest_rows. simpl. rewrite filter_app. simpl.
    unfold guest_matches at 2. simpl. rewrite Z.eqb_refl. simpl.
    destruct (String.eqb e email); reflexivity.
  - rewrite app_nil_r. reflexivity.
Qed.

Lemma invite_one_at_a_time_rows event_id user emails db email :
  guest_rows event_id email db = [] ->
  In email emails ->
  List.length
    (guest_rows event_id email (fold_left (invite_one event_id user) emails db))
  = 1%nat.
Proof.
  assert (Hkeep : forall emails db,
             guest_rows event_id email db <> [] ->
             guest_rows event_id email
               (fold_left (invite_one event_id user) emails db)
             = guest_rows event_id email db).
  { clear. induction emails as [|e emails IH]; intros db Hsome;
      [reflexivity|].
    cbn [fold_left].
    assert (Hsame : guest_rows event_id email (invite_one event_id user db e)
                    = guest_rows event_id email db).
    { rewrite invite_one_rows.
      destruct (is_new event_id db e) eqn:Hnew; simpl;
        [|apply app_nil_r].
      destruct (String.eqb_spec e email) as [->|_]; [|apply app_nil_r].
      apply is_new_iff_no_rows in Hnew. contradiction. }
    rewrite IH; rewrite Hsame; [reflexivity | exact Hsome]. }
  revert db. induction emails as [|e emails IH]; intros db Hnone Hin;
    [contradiction|].
  cbn [fold_left].
  pose proof (invite_one_rows event_id user db e email) as Hrows.
  rewrite Hnone in Hrows. simpl in Hrows.
  destruct (String.eqb_spec e email) as [->|Hne].
  - rewrite (proj2 (is_new_iff_no_rows event_id db email) Hnone) in Hrows.
    simpl in Hrows.
    rewrite Hkeep; rewrite Hrows; [reflexivity | discriminate].
  - rewrite andb_false_r in Hrows.
    apply IH; [exact Hrows|]. destruct Hin as [Heq|Hin]; [contradiction|exact Hin].
Qed.

(** In a session that autoflushes, a batch that names a new email, however
    often, leaves exactly one row for the pair. *)
Lemma invite_autoflush_one_row event_id emails user db event email :
  query_owned_event event_id user db = Some event ->
  guest_rows event_id email db = [] ->
  In email emails ->
  List.length
    (guest_rows event_id email
       (snd (invite_guests_in autoflushing event_id
               {| InviteRequest.guest_emails := emails |} user db)))
  = 1%nat.
Proof.
  intros Hev Hnone Hin. unfold invite_guests_in. rewrite Hev.
  cbn [InviteRequest.guest_emails].
  pose proof (invite_loop_autoflush autoflushing event_id user emails db [] []
                eq_refl) as Hloop.
  destruct (invite_loop autoflushing event_id user emails db [] [])
    as [[db1 flushed] pending].
  destruct (flush pending db1) as [rows db2]. cbn [snd] in *.
  rewrite Hloop. apply invite_one_at_a_time_rows; assumption.
Qed.

(** The display name: the part of the email before the first at sign. *)
Lemma split_prefix sep (local rest : string) :
  (forall c, In c (list_ascii_of_string local) -> c <> sep) ->
  hd EmptyString (split sep (String.append local (String sep rest))) = local.
Proof.
  induction local as [|c local IH]; simpl; intros Hfree.
  - rewrite Ascii.eqb_refl. reflexivity.
  - assert (Hc : Ascii.eqb c sep = false).
    { apply Ascii.eqb_neq. apply Hfree. left. reflexivity. }
    rewrite Hc.
    assert (IH' := IH (fun c' Hc' => Hfree c' (or_intror Hc'))).
    destruct (split sep (String.append local (String sep rest))) as [|piece pieces];
      simpl in *; [subst; reflexivity | congruence].
Qed.

Lemma email_prefix_local_part (local domain : string) :
  (forall c, In c (list_ascii_of_string local) -> c <> "@"%char) ->
  email_prefix (String.append local (String "@"%char domain)) = local.
Proof. apply split_prefix. Qed.

(** ** Login and the authorization gate *)

Section TokenProperties.

Variable sha256_hexdigest : string -> string.
Variable SECRET_KEY : string.
Variable jws_sign : dict -> string -> string -> string.
Variable jws_verify : string -> string -> list string -> option dict.

(** Verifying a signed integer-subject payload with the key and algorithm
    it was signed with gives the payload back. *)
Hypothesis jws_verify_sign :
  forall user_id,
    jws_verify (jws_sign [("sub", JInt user_id)] SECRET_KEY ALGORITHM)
               SECRET_KEY [ALGORITHM]
    = Some [("sub", JInt user_id)].

Lemma login_ok_token form_data db token db' :
  login sha256_hexdigest SECRET_KEY jws_sign form_data db = (Ok token, db') ->
  db' = db /\
  exists user,
    In user (users db) /\
    User.username user = OAuth2PasswordRequestForm.username form_data /\
    verify_password sha256_hexdigest
      (OAuth2PasswordRequestForm.password form_data)
      (User.hashed_password user) = true /\
    Token.access_token token
    = create_access_token SECRET_KEY jws_sign [("sub", JInt (User.id user))].
Proof.
  unfold login.
  destruct (find _ (users db)) as [user|] eqn:Hfind; [|discriminate].
  destruct (verify_password sha256_hexdigest _ (User.hashed_password user))
    eqn:Hpw; simpl; [|discriminate].
  intros H. inversion H; subst. split; [reflexivity|].
  destruct (find_some _ _ Hfind) as [Hin Hname].
  exists user. repeat split; try assumption.
  apply String.eqb_eq. exact Hname.
Qed.

(** The payload of a login token signs well but does not pass the
    subject validation of [jwt_decode]: its subject is an integer. *)
Lemma jwt_decode_login_token user_id :
  jwt_decode jws_verify
    (create_access_token SECRET_KEY jws_sign [("sub", JInt user_id)])
    SECRET_KEY [ALGORITHM]
  = None.
Proof using jws_verify_sign.
  unfold jwt_decode, create_access_token, jwt_encode.
  rewrite jws_verify_sign. reflexivity.
Qed.

(** C1 fails on the code. [login] issues the token with the user's
    integer id as subject; the gate decodes it with [jwt_decode], which
    rejects a subject that is not a string, so every token that a
    successful login returns is answered by the gate with the
    credentials error (401) and resolves to no user. *)
Theorem login_token_rejected_by_gate
    (form_data : OAuth2PasswordRequestForm.t) (db : Database)
    (token : Token.t) (db' : Database) :
  login sha256_hexdigest SECRET_KEY jws_sign form_data db = (Ok token, db') ->
  get_current_user SECRET_KEY jws_verify (Token.access_token token) db'
  = (Raise credentials_exception, db').
Proof using jws_verify_sign.
  intros Hlogin.
  destruct (login_ok_token _ _ _ _ Hlogin) as (-> & user & _ & _ & _ & ->).
  unfold get_current_user. rewrite jwt_decode_login_token. reflexivity.
Qed.

End TokenProperties.

(** *** The stand-in token library verifies what it signs *)

Lemma strip_prefix_append (p s : string) :
  strip_prefix p (String.append p s) = Some s.
Proof.
  induction p as [|a p IH]; simpl; [reflexivity|].
  rewrite Ascii.eqb_refl. exact IH.
Qed.

Lemma parse_render_positive (p : positive) :
  parse_positive (render_positive p) = Some p.
Proof. induction p as [q IH|q IH|]; simpl; try rewrite IH; reflexivity. Qed.

Lemma parse_render_Z (z : Z) : parse_Z (render_Z z) = Some z.
Proof.
  destruct z as [|p|p]; simpl; try rewrite parse_render_positive; reflexivity.
Qed.

Lemma demo_verify_sign (key algorithm : string) (user_id : Z) :
  demo_verify (demo_sign [("sub", JInt user_id)] key algorithm) key [algorithm]
  = Some [("sub", JInt user_id)].
Proof.
  unfold demo_verify, demo_sign. simpl dict_lookup.
  rewrite strip_prefix_append. simpl. rewrite parse_render_Z. reflexivity.
Qed.

(** ** The handlers keep the primary keys well-formed *)

Lemma pk_ok_filter {A : Type} (key : A -> Z) (f : A -> bool) (l : list A) next :
  pk_ok (map key l) next -> pk_ok (map key (filter f l)) next.
Proof.
  intros [Hnd Hlt]. induction l as [|a l IH]; simpl in *; [split; constructor|].
  inversion Hnd as [|k ks Hnotin Hnd']; subst.
  inversion Hlt as [|k ks Ha Hlt']; subst.
  destruct (IH Hnd' Hlt') as [IHnd IHlt].
  destruct (f a); simpl; [|split; assumption].
  split; constructor; try assumption.
  intros Hin. apply Hnotin. apply in_map_iff in Hin.
  destruct Hin as (x & Hx & Hxin). apply filter_In in Hxin.
  rewrite <- Hx. apply in_map. tauto.
Qed.

Lemma map_id_update_row pk event' (l : list Event.t) :
  map Event.id (map (update_row pk event') l) = map Event.id l.
Proof.
  rewrite map_map. apply map_ext. intros e. unfold update_row.
  destruct (Event.id e =? pk); reflexivity.
Qed.

Lemma pk_ok_flush pending db :
  Forall (fun new_guest : Z -> Guest.t => forall pk, Guest.id (new_guest pk) = pk)
         pending ->
  pk_ok (map Guest.id (guests db)) (guests_seq db) ->
  pk_ok (map Guest.id (guests (snd (flush pending db))))
        (guests_seq (snd (flush pending db))).
Proof.
  revert db. induction pending as [|g pending IH]; intros db Hids Hpk;
    [exact Hpk|].
  inversion Hids as [|g' l Hg Hrest]; subst.
  cbn [flush].
  destruct (flush pending
              (with_guests db (guests db ++ [g (guests_seq db)])
                           (guests_seq db + 1))) as [rows db'] eqn:E.
  change db' with (snd (rows, db')). rewrite <- E.
  apply IH; [exact Hrest|].
  simpl. rewrite map_app. simpl. rewrite Hg. apply pk_ok_append. exact Hpk.
Qed.

Create HintDb wf_db.

(** Split [wf] of a rebuilt database into its four tables and close the
    tables the handler did not write. *)
Ltac wf_tables :=
  unfold wf; simpl; split; [|split; [|split]]; try assumption.

Lemma wf_signup sha256_hexdigest user_data db :
  wf db -> wf (snd (signup sha256_hexdigest user_data db)).
Proof.
  intros Hwf. unfold signup.
  destruct (find _ (users db)); [exact Hwf|].
  destruct Hwf as (Hu & He & Hg & Hr). wf_tables.
  rewrite map_app. apply pk_ok_append. exact Hu.
Qed.

Lemma wf_create_event event_data user db :
  wf db -> wf (snd (create_event event_data user db)).
Proof.
  intros (Hu & He & Hg & Hr). unfold create_event. wf_tables.
  rewrite map_app. apply pk_ok_append. exact He.
Qed.

Lemma wf_update_event event_id event_update user db :
  wf db -> wf (snd (update_event event_id event_update user db)).
Proof.
  intros Hwf. unfold update_event.
  destruct (query_owned_event event_id user db) as [event|]; [|exact Hwf].
  destruct (setattr (Some (Event.title event)) _); [|exact Hwf].
  destruct (setattr (Some (Event.date event)) _); [|exact Hwf].
  destruct (setattr (Some (Event.location event)) _); [|exact Hwf].
  destruct Hwf as (Hu & He & Hg & Hr). wf_tables.
  rewrite map_id_update_row. exact He.
Qed.

Lemma wf_delete_event event_id user db :
  wf db -> wf (snd (delete_event event_id user db)).
Proof.
  intros Hwf. unfold delete_event.
  destruct (query_owned_event event_id user db) as [event|]; [|exact Hwf].
  destruct Hwf as (Hu & He & Hg & Hr). wf_tables;
    apply pk_ok_filter; assumption.
Qed.

Lemma wf_add_guest event_id guest user db :
  wf db -> wf (snd (add_guest event_id guest user db)).
Proof.
  intros Hwf. unfold add_guest.
  destruct (query_owned_event event_id user db) as [event|]; [|exact Hwf].
  destruct Hwf as (Hu & He & Hg & Hr). wf_tables.
  rewrite map_app. apply pk_ok_append. exact Hg.
Qed.

Lemma flush_frame pending db :
  users (snd (flush pending db)) = users db /\
  events (snd (flush pending db)) = events db /\
  rsvps (snd (flush pending db)) = rsvps db /\
  users_seq (snd (flush pending db)) = users_seq db /\
  events_seq (snd (flush pending db)) = events_seq db /\
  rsvps_seq (snd (flush pending db)) = rsvps_seq db.
Proof. rewrite flush_numbered. simpl. repeat split. Qed.

Lemma wf_invite_guests event_id invite_request user db :
  wf db -> wf (snd (invite_guests event_id invite_request user db)).
Proof.
  intros Hwf. unfold invite_guests, invite_guests_in.
  destruct (query_owned_event event_id user db) as [event|]; [|exact Hwf].
  rewrite invite_loop_no_autoflush by reflexivity. simpl app.
  set (pending := map (invited_guest event_id user) _).
  destruct (flush pending db) as [rows db2] eqn:E. simpl.
  assert (Hdb2 : db2 = snd (flush pending db)) by (rewrite E; reflexivity).
  destruct (flush_frame pending db) as (H1 & H2 & H3 & H4 & H5 & H6).
  destruct Hwf as (Hu & He & Hg & Hr). unfold wf.
  rewrite Hdb2, H1, H2, H3, H4, H5, H6.
  split; [|split; [|split]]; try assumption.
  apply pk_ok_flush; [|exact Hg].
  unfold pending. apply Forall_forall. intros g Hin.
  apply in_map_iff in Hin. destruct Hin as (e & <- & _). reflexivity.
Qed.

Lemma wf_rsvp_to_event event_id rsvp user db :
  wf db -> wf (snd (rsvp_to_event event_id rsvp user db)).
Proof.
  intros Hwf. unfold rsvp_to_event.
  destruct (query_event event_id db) as [event|]; [|exact Hwf].
  destruct (_ && _); [exact Hwf|].
  destruct Hwf as (Hu & He & Hg & Hr).
  destruct (query_rsvp event_id (User.id user) db) as [r0|]; wf_tables.
  - rewrite map_id_set_status. exact Hr.
  - rewrite map_app. apply pk_ok_append. exact Hr.
Qed.

#[export] Hint Resolve wf_signup wf_create_event wf_update_event
  wf_delete_event wf_add_guest wf_invite_guests wf_rsvp_to_event : wf_db.

(** The submit keeps the rule of one RSVP row for each pair. *)
Lemma one_rsvp_per_pair_rsvp_to_event event_id rsvp user db :
  one_rsvp_per_pair db ->
  one_rsvp_per_pair (snd (rsvp_to_event event_id rsvp user db)).
Proof.
  intros Hone. unfold rsvp_to_event.
  destruct (query_event event_id db) as [event|]; [|exact Hone].
  destruct (_ && _); [exact Hone|].
  destruct (query_rsvp event_id (User.id user) db) as [r0|] eqn:Hq;
    intros e u; unfold rsvp_rows; simpl.
  - rewrite rsvp_rows_set_status, length_map. apply Hone.
  - rewrite filter_app_one, length_app.
    pose proof (Hone e u) as Hle. unfold rsvp_rows in Hle.
    destruct (rsvp_matches e u _) eqn:Hm; simpl; [|lia].
    apply rsvp_matches_true in Hm. simpl in Hm. destruct Hm as [<- <-].
    unfold query_rsvp in Hq. rewrite find_hd_filter in Hq.
    destruct (filter (rsvp_matches event_id (User.id user)) (rsvps db));
      [simpl; lia | discriminate].
Qed.

(** The handlers other than the submit do not add RSVP rows. *)
Lemma one_rsvp_per_pair_subtable (db db' : Database) (f : RSVP.t -> bool) :
  rsvps db' = filter f (rsvps db) ->
  one_rsvp_per_pair db -> one_rsvp_per_pair db'.
Proof.
  intros Hsub Hone e u. specialize (Hone e u). unfold rsvp_rows in *.
  rewrite Hsub.
  assert (Hle : forall l : list RSVP.t,
             (List.length (filter (rsvp_matches e u) (filter f l))
              <= List.length (filter (rsvp_matches e u) l))%nat).
  { induction l as [|r l IH]; simpl; [lia|].
    destruct (f r); simpl; destruct (rsvp_matches e u r); simpl; lia. }
  specialize (Hle (rsvps db)). lia.
Qed.

Lemma one_rsvp_per_pair_same_rsvps (db db' : Database) :
  rsvps db' = rsvps db -> one_rsvp_per_pair db -> one_rsvp_per_pair db'.
Proof.
  intros Hsame Hone e u. unfold rsvp_rows. rewrite Hsame. apply Hone.
Qed.

(** X1. Every database that served requests produce from [init_db] has
    well-formed primary keys (no two rows of a table share an id, every id
    is below its sequence) and at most one RSVP row for each (event, user)
    pair. *)
Lemma reachable_invariants sha256_hexdigest db :
  reachable sha256_hexdigest db -> wf db /\ one_rsvp_per_pair db.
Proof.
  intros [requests ->].
  assert (Hinit : wf init_db /\ one_rsvp_per_pair init_db).
  { split.
    - unfold wf, pk_ok. simpl. repeat split; constructor.
    - intros e u. simpl. lia. }
  revert Hinit. generalize init_db.
  induction requests as [|request requests IH]; intros db [Hwf Hone];
    [split; assumption|].
  simpl. apply IH. split.
  - destruct request; cbn [serve]; auto with wf_db.
  - destruct request; cbn [serve].
    + apply (one_rsvp_per_pair_same_rsvps db); [|exact Hone].
      unfold signup. destruct (find _ (users db)); reflexivity.
    + apply (one_rsvp_per_pair_same_rsvps db); [reflexivity | exact Hone].
    + apply (one_rsvp_per_pair_same_rsvps db); [|exact Hone].
      unfold update_event.
      destruct (query_owned_event event_id user db) as [event|]; [|reflexivity].
      destruct (setattr (Some (Event.title event)) _); [|reflexivity].
      destruct (setattr (Some (Event.date event)) _); [|reflexivity].
      destruct (setattr (Some (Event.location event)) _); reflexivity.
    + unfold delete_event.
      destruct (query_owned_event event_id user db) as [event|]; [|exact Hone].
      eapply one_rsvp_per_pair_subtable; [|exact Hone]. cbn [snd rsvps].
      reflexivity.
    + apply (one_rsvp_per_pair_same_rsvps db); [|exact Hone].
      unfold add_guest.
      destruct (query_owned_event event_id user db); reflexivity.
    + apply (one_rsvp_per_pair_same_rsvps db); [|exact Hone].
      unfold invite_guests, invite_guests_in.
      destruct (query_owned_event event_id user db) as [event|]; [|reflexivity].
      rewrite invite_loop_no_autoflush by reflexivity.
      rewrite flush_numbered. reflexivity.
    + apply one_rsvp_per_pair_rsvp_to_event. exact Hone.
Qed.

(** ** The example databases *)

(** Both example databases are what served requests leave of [init_db]. *)
Lemma db_events_reachable : reachable demo_digest db_events.
Proof.
  exists [ Signup {| UserCreate.username := "alice";
                     UserCreate.email := "alice@x.com";
                     UserCreate.password := "secret1" |};
           Signup {| UserCreate.username := "bob";
                     UserCreate.email := "bob@x.com";
                     UserCreate.password := "hunter22" |};
           Signup {| UserCreate.username := "carol";
                     UserCreate.email := "carol@x.com";
                     UserCreate.password := "letmein" |};
           CreateEvent {| EventCreate.title := "Party";
                          EventCreate.description := None;
                          EventCreate.date := 1767225600;
                          EventCreate.location := "Home" |} alice;
           CreateEvent {| EventCreate.title := "Picnic";
                          EventCreate.description := Some "Bring food";
                          EventCreate.date := 1769904000;
                          EventCreate.location := "Park" |} bob ].
  reflexivity.
Qed.

Lemma db_invited_reachable : reachable demo_digest db_invited.
Proof.
  destruct db_events_reachable as [requests Hrequests].
  exists (requests
          ++ [InviteGuests 1 {| InviteRequest.guest_emails := ["bob@x.com"] |}
                           alice]).
  rewrite fold_left_app, <- Hrequests. reflexivity.
Qed.

Lemma distinct_NoDup (l : list Z) : distinct l = true -> NoDup l.
Proof.
  induction l as [|x l IH]; simpl; intros H; [constructor|].
  apply andb_true_iff in H. destruct H as [Hx Hl].
  constructor; [|exact (IH Hl)].
  intros Hin. apply negb_true_iff in Hx.
  assert (existsb (Z.eqb x) l = true).
  { apply existsb_exists. exists x. split; [exact Hin | apply Z.eqb_refl]. }
  congruence.
Qed.

(** Carol owns neither event: her reads, updates and deletes of alice's
    party are answered not-found. *)
Lemma event_ownership_scoping_witness :
  get_event 1 carol db_events = (Raise event_not_found, db_events) /\
  delete_event 1 carol db_events = (Raise event_not_found, db_events).
Proof.
  assert (Hnd : NoDup (map Event.id (events db_events)))
    by (apply distinct_NoDup; reflexivity).
  destruct (event_ownership_scoping db_events carol Hnd) as [Hother _].
  destruct (Hother party) as (Hget & _ & Hdel).
  - simpl. left. reflexivity.
  - simpl. lia.
  - split; [exact Hget | exact Hdel].
Defined.

(** A new user dave signs up on the example database. *)
Lemma signup_conflict_iff_exists_witness :
  exists user,
    fst (signup demo_digest
                {| UserCreate.username := "dave"; UserCreate.email := "dave@x.com";
                   UserCreate.password := "opensesame" |} db_events) = Ok user /\
    User.hashed_password user = demo_digest "opensesame".
Proof.
  destruct (signup_conflict_iff_exists demo_digest
              {| UserCreate.username := "dave"; UserCreate.email := "dave@x.com";
                 UserCreate.password := "opensesame" |} db_events)
    as (_ & Hnew & _).
  destruct Hnew as (user & Hsignup & _ & _ & Hhash & _).
  - intros (u & Hin & Hu). simpl in Hin.
    destruct Hin as [<-|[<-|[<-|[]]]]; simpl in Hu; destruct Hu; discriminate.
  - exists user. rewrite Hsignup. split; [reflexivity | exact Hhash].
Defined.

(** Alice moves her party and clears its description. *)
Lemma update_event_partial_witness :
  exists event',
    fst (update_event 1
           {| EventUpdate.title := None; EventUpdate.description := Some None;
              EventUpdate.date := None;
              EventUpdate.location := Some (Some "Rooftop") |}
           alice db_events) = Ok event' /\
    Event.title event' = "Party" /\ Event.location event' = "Rooftop".
Proof.
  destruct (update_event_partial db_events alice party
              {| EventUpdate.title := None; EventUpdate.description := Some None;
                 EventUpdate.date := None;
                 EventUpdate.location := Some (Some "Rooftop") |})
    as (event' & before & after & Hupdate & _ & _ & _ & Htitle & _ & _ & Hloc).
  - apply distinct_NoDup. reflexivity.
  - simpl. left. reflexivity.
  - reflexivity.
  - repeat split; discriminate.
  - exists event'. change (Event.id party) with 1 in Hupdate.
    rewrite Hupdate. simpl in Htitle, Hloc.
    repeat split; congruence.
Defined.

(** Carol is neither the owner of alice's party nor invited to it. *)
Lemma rsvp_requires_owner_or_guest_witness :
  rsvp_to_event 1 {| RSVPCreate.status := "accepted" |} carol db_invited
  = (Raise must_be_invited_or_owner, db_invited).
Proof.
  refine (proj2 (rsvp_requires_owner_or_guest db_invited carol party
                   {| RSVPCreate.status := "accepted" |} _ _) _ _).
  - apply distinct_NoDup. reflexivity.
  - simpl. left. reflexivity.
  - simpl. lia.
  - intros (g & Hin & _ & Hemail). simpl in Hin.
    destruct Hin as [<-|[]]. discriminate.
Defined.

(** Carol probes two ids: 2 is bob's picnic, 7 is no event. *)
Lemma rsvp_reveals_event_existence_witness :
  rsvp_to_event 7 {| RSVPCreate.status := "maybe" |} carol db_invited
  = (Raise event_not_found, db_invited) /\
  rsvp_to_event 2 {| RSVPCreate.status := "maybe" |} carol db_invited
  = (Raise must_be_invited_or_owner, db_invited).
Proof.
  assert (Hnd : NoDup (map Event.id (events db_invited)))
    by (apply distinct_NoDup; reflexivity).
  destruct (rsvp_reveals_event_existence db_invited carol
              {| RSVPCreate.status := "maybe" |} Hnd) as (Hmissing & Hforbidden & _).
  split.
  - apply Hmissing. intros e He. simpl in He.
    destruct He as [<-|[<-|[]]]; simpl; lia.
  - apply (Hforbidden picnic).
    + simpl. right. left. reflexivity.
    + simpl. lia.
    + intros (g & Hin & Hev & _). simpl in Hin.
      destruct Hin as [<-|[]]. simpl in Hev. lia.
Defined.

(** Alice accepts the invitation to her own party, then declines. *)
Lemma rsvp_upsert_witness :
  exists r2 db2,
    rsvp_to_event 1 {| RSVPCreate.status := "declined" |} alice
      (snd (rsvp_to_event 1 {| RSVPCreate.status := "accepted" |} alice db_invited))
    = (Ok r2, db2) /\
    RSVP.id r2 = 1 /\ RSVP.status r2 = "declined" /\
    rsvp_rows 1 1 db2 = [r2].
Proof.
  destruct (rsvp_upsert db_invited alice 1
              {| RSVPCreate.status := "accepted" |}
              {| RSVPCreate.status := "declined" |}
              {| RSVP.id := 1; RSVP.event_id := 1; RSVP.user_id := 1;
                 RSVP.status := "accepted" |}
              (with_rsvps db_invited
                 [{| RSVP.id := 1; RSVP.event_id := 1; RSVP.user_id := 1;
                     RSVP.status := "accepted" |}] 2))
    as (_ & _ & _ & r2 & db2 & _ & _ & Hsecond & Hid & Hstatus & Hrows & _).
  - split; constructor.
  - simpl. lia.
  - reflexivity.
  - exists r2, db2. repeat split; assumption.
Defined.

(** Alice invites bob, already her guest, and dan, who is not. *)
Lemma invite_returns_created_guests_witness :
  exists rows,
    fst (invite_guests 1
           {| InviteRequest.guest_emails := ["bob@x.com"; "dan@x.com"] |}
           alice db_invited) = Ok rows /\
    map Guest.email rows = ["dan@x.com"].
Proof.
  destruct (invite_returns_created_guests db_invited alice 1 party
              {| InviteRequest.guest_emails := ["bob@x.com"; "dan@x.com"] |})
    as (rows & Hcall & Hemails & _).
  - reflexivity.
  - exists rows. rewrite Hcall. split; [reflexivity | exact Hemails].
Defined.

(** Alice lists dan twice in one request. *)
Lemma invite_repeated_email_rows_witness :
  exists rows db',
    invite_guests 1
      {| InviteRequest.guest_emails := ["dan@x.com"; "dan@x.com"] |}
      alice db_events = (Ok rows, db') /\
    List.length (guest_rows 1 "dan@x.com" db') = 2%nat.
Proof.
  destruct (invite_repeated_email_rows db_events alice 1 party
              ["dan@x.com"; "dan@x.com"] "dan@x.com")
    as (rows & db' & Hcall & Hrows & _).
  - reflexivity.
  - reflexivity.
  - exists rows, db'. split; [exact Hcall | exact Hrows].
Defined.

(** Alice logs in with her password and presents the token. *)
Lemma login_token_rejected_by_gate_witness :
  exists token,
    login demo_digest demo_key demo_sign
      {| OAuth2PasswordRequestForm.username := "alice";
         OAuth2PasswordRequestForm.password := "secret1" |} db_events
    = (Ok token, db_events) /\
    get_current_user demo_key demo_verify (Token.access_token token) db_events
    = (Raise credentials_exception, db_events).
Proof.
  eexists. split; [reflexivity|].
  apply (login_token_rejected_by_gate demo_digest demo_key demo_sign demo_verify
           (demo_verify_sign demo_key ALGORITHM)
           {| OAuth2PasswordRequestForm.username := "alice";
              OAuth2PasswordRequestForm.password := "secret1" |} db_events).
  reflexivity.
Defined.

(** * Further properties of the handlers *)

(** ** Invariants of the reachable databases *)

Lemma reachable_invariants_witness :
  wf db_invited /\ one_rsvp_per_pair db_invited.
Proof.
  exact (reachable_invariants demo_digest db_invited db_invited_reachable).
Defined.

Lemma reachable_induction sha256_hexdigest (P : Database -> Prop) :
  P init_db ->
  (forall db request, P db -> P (serve sha256_hexdigest db request)) ->
  forall db, reachable sha256_hexdigest db -> P db.
Proof.
  intros Hinit Hstep db [requests ->].
  revert Hinit. generalize init_db.
  induction requests as [|request requests IH]; intros db Hdb; [exact Hdb|].
  simpl. apply IH. apply Hstep. exact Hdb.
Qed.

(** Only signup writes the users. *)
Lemma serve_keeps_users sha256_hexdigest db request :
  match request with
  | Signup _ => True
  | _ => users (serve sha256_hexdigest db request) = users db
  end.
Proof.
  destruct request; cbn [serve]; [exact I | reflexivity | | | | | ].
  - unfold update_event.
    destruct (query_owned_event event_id user db) as [event|]; [|reflexivity].
    destruct (setattr (Some (Event.title event)) _); [|reflexivity].
    destruct (setattr (Some (Event.date event)) _); [|reflexivity].
    destruct (setattr (Some (Event.location event)) _); reflexivity.
  - unfold delete_event.
    destruct (query_owned_event event_id user db); reflexivity.
  - unfold add_guest.
    destruct (query_owned_event event_id user db); reflexivity.
  - unfold invite_guests, invite_guests_in.
    destruct (query_owned_event event_id user db) as [event|]; [|reflexivity].
    rewrite invite_loop_no_autoflush by reflexivity.
    rewrite flush_numbered. reflexivity.
  - unfold rsvp_to_event.
    destruct (query_event event_id db) as [event|]; [|reflexivity].
    destruct (_ && _); [reflexivity|].
    destruct (query_rsvp event_id (User.id user) db); reflexivity.
Qed.

Lemma NoDup_snoc {A : Type} (l : list A) (x : A) :
  NoDup l -> ~ In x l -> NoDup (l ++ [x]).
Proof.
  intros Hnd Hx. apply NoDup_app; [exact Hnd | repeat constructor; simpl; tauto |].
  intros y Hy [Heq|[]]. subst y. contradiction.
Qed.

(** X2. In every database that served requests produce from [init_db],
    no two users share a username and no two users share an email: the
    lookup that signup makes before it inserts keeps both unique. *)
Theorem reachable_unique_credentials (sha256_hexdigest : string -> string)
    (db : Database) :
  reachable sha256_hexdigest db -> unique_credentials db.
Proof.
  apply reachable_induction.
  - split; constructor.
  - intros db0 request [Hnames Hemails].
    pose proof (serve_keeps_users sha256_hexdigest db0 request) as Hkeep.
    destruct request; try (unfold unique_credentials; rewrite Hkeep;
                           split; assumption).
    cbn [serve]. unfold signup.
    destruct (find (username_or_email_taken user_data) (users db0)) eqn:Hfind;
      [split; assumption|].
    pose proof (proj1 (find_none_iff _ _) Hfind) as Hnone.
    unfold unique_credentials. cbn [snd with_users users].
    rewrite !map_app. cbn [map].
    split; apply NoDup_snoc; try assumption.
    + intros Hin. apply in_map_iff in Hin. destruct Hin as (u & Hu & Huin).
      specialize (Hnone u Huin).
      assert (username_or_email_taken user_data u = true)
        by (apply username_or_email_taken_true; left; exact Hu).
      congruence.
    + intros Hin. apply in_map_iff in Hin. destruct Hin as (u & Hu & Huin).
      specialize (Hnone u Huin).
      assert (username_or_email_taken user_data u = true)
        by (apply username_or_email_taken_true; right; exact Hu).
      congruence.
Qed.

Lemma reachable_unique_credentials_witness : unique_credentials db_invited.
Proof.
  exact (reachable_unique_credentials demo_digest db_invited
           db_invited_reachable).
Defined.

Lemma update_row_keeps_id pk event' e :
  Event.id (update_row pk event' e) = Event.id e.
Proof. unfold update_row. destruct (Event.id e =? pk); reflexivity. Qed.

Lemma set_status_keeps_event pk status r :
  RSVP.event_id (set_status pk status r) = RSVP.event_id r.
Proof. unfold set_status. destruct (RSVP.id r =? pk); reflexivity. Qed.

(** X3. In every database that served requests produce from [init_db],
    every guest row and every RSVP row refers to an event that is in the
    events table: rows are only added for an event the handler has just
    looked up, and deleting an event deletes its guests and RSVPs. *)
Theorem reachable_no_dangling_rows (sha256_hexdigest : string -> string)
    (db : Database) :
  reachable sha256_hexdigest db -> no_dangling_rows db.
Proof.
  apply reachable_induction.
  - split; intros x [].
  - intros db0 request [Hguests Hrsvps].
    destruct request; cbn [serve].
    + (* signup *)
      unfold signup. destruct (find _ (users db0)); split; assumption.
    + (* create_event *)
      split; cbn [snd create_event with_events events guests rsvps];
        intros x Hx; [destruct (Hguests x Hx) as (e & He & Hid)
                     | destruct (Hrsvps x Hx) as (e & He & Hid)];
        exists e; (split; [apply in_or_app; left; exact He | exact Hid]).
    + (* update_event *)
      unfold update_event.
      destruct (query_owned_event event_id user db0) as [event|];
        [|split; assumption].
      destruct (setattr (Some (Event.title event)) _); [|split; assumption].
      destruct (setattr (Some (Event.date event)) _); [|split; assumption].
      destruct (setattr (Some (Event.location event)) _); [|split; assumption].
      split; cbn [snd with_events events guests rsvps];
        intros x Hx; [destruct (Hguests x Hx) as (e & He & Hid)
                     | destruct (Hrsvps x Hx) as (e & He & Hid)];
        eexists; (split; [apply in_map; exact He
                         | rewrite update_row_keeps_id; exact Hid]).
    + (* delete_event *)
      unfold delete_event.
      destruct (query_owned_event event_id user db0) as [event|];
        [|split; assumption].
      split; cbn [snd events guests rsvps]; intros x Hx;
        apply filter_In in Hx; destruct Hx as [Hx Hkeep];
        [destruct (Hguests x Hx) as (e & He & Hid)
        | destruct (Hrsvps x Hx) as (e & He & Hid)];
        exists e; (split; [|exact Hid]);
        apply filter_In; (split; [exact He|]); rewrite Hid; exact Hkeep.
    + (* add_guest *)
      unfold add_guest.
      destruct (query_owned_event event_id user db0) as [event|] eqn:Hev;
        [|split; assumption].
      split; [|exact Hrsvps].
      cbn [snd with_guests events guests]. intros g Hg.
      apply in_app_or in Hg. destruct Hg as [Hg|[<-|[]]]; [exact (Hguests g Hg)|].
      exists event. split; [|reflexivity].
      apply query_owned_event_some in Hev. tauto.
    + (* invite_guests *)
      destruct (query_owned_event event_id user db0) as [event|] eqn:Hev.
      * rewrite (invite_guests_owned _ invite_request _ _ _ Hev).
        split; [|exact Hrsvps].
        cbn [snd with_guests events guests]. intros g Hg.
        apply in_app_or in Hg. destruct Hg as [Hg|Hg]; [exact (Hguests g Hg)|].
        pose proof (numbered_invited_shape event_id user
                      (filter (is_new event_id db0)
                              (InviteRequest.guest_emails invite_request))
                      (guests_seq db0)) as Hshape.
        rewrite Forall_forall in Hshape. destruct (Hshape g Hg) as [Hid _].
        exists event. apply query_owned_event_some in Hev.
        split; [tauto|]. rewrite Hid. tauto.
      * unfold invite_guests, invite_guests_in. rewrite Hev. split; assumption.
    + (* rsvp_to_event *)
      unfold rsvp_to_event.
      destruct (query_event event_id db0) as [event|] eqn:Hev;
        [|split; assumption].
      destruct (_ && _); [split; assumption|].
      apply query_event_some in Hev. destruct Hev as [Hin Hid].
      destruct (query_rsvp event_id (User.id user) db0) as [r0|];
        (split; [exact Hguests|]); cbn [snd with_rsvps events rsvps];
        intros r Hr.
      * apply in_map_iff in Hr. destruct Hr as (r' & <- & Hr').
        rewrite set_status_keeps_event. exact (Hrsvps r' Hr').
      * apply in_app_or in Hr. destruct Hr as [Hr|[<-|[]]]; [exact (Hrsvps r Hr)|].
        exists event. split; [exact Hin | exact Hid].
Qed.

Lemma reachable_no_dangling_rows_witness : no_dangling_rows db_invited.
Proof.
  exact (reachable_no_dangling_rows demo_digest db_invited db_invited_reachable).
Defined.

(** ** Signup and login together *)

Lemma find_snoc {A : Type} (f : A -> bool) (l : list A) (x : A) :
  find f l = None -> find f (l ++ [x]) = if f x then Some x else None.
Proof.
  induction l as [|a l IH]; simpl; [reflexivity|].
  destruct (f a); [discriminate | exact IH].
Qed.

Lemma find_app_some {A : Type} (f : A -> bool) (l l' : list A) (x : A) :
  find f l = Some x -> find f (l ++ l') = Some x.
Proof.
  induction l as [|a l IH]; simpl; [discriminate|].
  destruct (f a); [trivial | exact IH].
Qed.

Lemma signup_ok_inv sha256_hexdigest user_data db user db1 :
  signup sha256_hexdigest user_data db = (Ok user, db1) ->
  find (username_or_email_taken user_data) (users db) = None /\
  user = {| User.id := users_seq db;
            User.username := UserCreate.username user_data;
            User.email := UserCreate.email user_data;
            User.hashed_password :=
              hash_password sha256_hexdigest (UserCreate.password user_data) |} /\
  db1 = with_users db (users db ++ [user]) (users_seq db + 1).
Proof.
  unfold signup.
  destruct (find (username_or_email_taken user_data) (users db));
    [discriminate|].
  intros H. inversion H; subst. repeat split.
Qed.

Section LoginProperties.

Variable sha256_hexdigest : string -> string.
Variable SECRET_KEY : string.
Variable jws_sign : dict -> string -> string -> string.

(** X4. A user who has just signed up can log in: after a successful
    signup, login with the same username and password succeeds, writes
    nothing, and answers with a bearer token issued for the id that
    signup gave the user. *)
Theorem signup_then_login (user_data : UserCreate.t) (db : Database)
    (user : User.t) (db1 : Database) :
  signup sha256_hexdigest user_data db = (Ok user, db1) ->
  login sha256_hexdigest SECRET_KEY jws_sign
    {| OAuth2PasswordRequestForm.username := UserCreate.username user_data;
       OAuth2PasswordRequestForm.password := UserCreate.password user_data |}
    db1
  = (Ok {| Token.access_token :=
             create_access_token SECRET_KEY jws_sign
               [("sub", JInt (User.id user))];
           Token.token_type := "bearer" |},
     db1).
Proof.
  intros Hsignup.
  destruct (signup_ok_inv _ _ _ _ _ Hsignup) as (Hnone & Huser & ->).
  unfold login. cbn [users with_users OAuth2PasswordRequestForm.username
                     OAuth2PasswordRequestForm.password].
  assert (Hfind : find (fun u => String.eqb (User.username u)
                                   (UserCreate.username user_data))
                       (users db ++ [user]) = Some user).
  { rewrite find_snoc.
    - rewrite Huser at 1. cbn [User.username]. rewrite String.eqb_refl.
      reflexivity.
    - apply find_none_iff. intros u Hu.
      pose proof (proj1 (find_none_iff _ _) Hnone u Hu) as Htaken.
      unfold username_or_email_taken in Htaken.
      apply orb_false_iff in Htaken. tauto. }
  rewrite Hfind.
  assert (Hpw : verify_password sha256_hexdigest
                  (UserCreate.password user_data) (User.hashed_password user)
                = true).
  { rewrite Huser. unfold verify_password. cbn [User.hashed_password].
    apply String.eqb_refl. }
  rewrite Hpw. reflexivity.
Qed.

(** X5. Login answers with the same 401 error, and writes nothing, both
    when no user has the username and when the password does not hash to
    the stored digest: whenever every user of that name has a different
    stored digest, the answer is "Incorrect username or password". *)
Theorem login_rejects_unknown_or_wrong
    (form_data : OAuth2PasswordRequestForm.t) (db : Database) :
  (forall u, In u (users db) ->
             User.username u = OAuth2PasswordRequestForm.username form_data ->
             User.hashed_password u
             <> hash_password sha256_hexdigest
                  (OAuth2PasswordRequestForm.password form_data)) ->
  login sha256_hexdigest SECRET_KEY jws_sign form_data db
  = (Raise (HTTPException 401 "Incorrect username or password"), db).
Proof.
  intros Hwrong. unfold login.
  destruct (find _ (users db)) as [user|] eqn:Hfind; [|reflexivity].
  destruct (find_some _ _ Hfind) as [Hin Hname].
  apply String.eqb_eq in Hname.
  assert (Hpw : verify_password sha256_hexdigest
                  (OAuth2PasswordRequestForm.password form_data)
                  (User.hashed_password user) = false).
  { unfold verify_password. apply String.eqb_neq.
    intros Heq. exact (Hwrong user Hin Hname (eq_sym Heq)). }
  rewrite Hpw. reflexivity.
Qed.

End LoginProperties.

(** X6. The username and the email of a user who has signed up are taken:
    after a successful signup, every further signup that asks for the
    same username or for the same email is answered with the 400 conflict
    and writes nothing. *)
Theorem signup_again_conflicts (sha256_hexdigest : string -> string)
    (user_data : UserCreate.t) (db : Database) (user : User.t)
    (db1 : Database) (user_data' : UserCreate.t) :
  signup sha256_hexdigest user_data db = (Ok user, db1) ->
  UserCreate.username user_data' = UserCreate.username user_data \/
  UserCreate.email user_data' = UserCreate.email user_data ->
  signup sha256_hexdigest user_data' db1
  = (Raise (HTTPException 400 "Username or Email already exists."), db1).
Proof.
  intros Hsignup Hsame.
  destruct (signup_ok_inv _ _ _ _ _ Hsignup) as (_ & Huser & ->).
  unfold signup. cbn [users with_users].
  destruct (find (username_or_email_taken user_data') (users db ++ [user]))
    eqn:Hfind; [reflexivity|].
  exfalso.
  assert (Hlast : In user (users db ++ [user]))
    by (apply in_or_app; right; left; reflexivity).
  pose proof (proj1 (find_none_iff _ _) Hfind user Hlast) as Hfree.
  assert (username_or_email_taken user_data' user = true).
  { apply username_or_email_taken_true. rewrite Huser. simpl.
    destruct Hsame as [H|H]; [left | right]; symmetry; exact H. }
  congruence.
Qed.

Lemma signup_then_login_witness :
  exists token,
    fst (login demo_digest demo_key demo_sign
           {| OAuth2PasswordRequestForm.username := "dave";
              OAuth2PasswordRequestForm.password := "opensesame" |}
           (snd (signup demo_digest
                   {| UserCreate.username := "dave";
                      UserCreate.email := "dave@x.com";
                      UserCreate.password := "opensesame" |} db_events)))
    = Ok token /\
    Token.token_type token = "bearer".
Proof.
  pose proof (signup_then_login demo_digest demo_key demo_sign
                {| UserCreate.username := "dave";
                   UserCreate.email := "dave@x.com";
                   UserCreate.password := "opensesame" |}
                db_events _ _ eq_refl) as Hlogin.
  eexists. split; [exact (f_equal fst Hlogin) | reflexivity].
Defined.

Lemma login_rejects_unknown_or_wrong_witness :
  login demo_digest demo_key demo_sign
    {| OAuth2PasswordRequestForm.username := "alice";
       OAuth2PasswordRequestForm.password := "guess" |} db_events
  = (Raise (HTTPException 401 "Incorrect username or password"), db_events) /\
  login demo_digest demo_key demo_sign
    {| OAuth2PasswordRequestForm.username := "mallory";
       OAuth2PasswordRequestForm.password := "secret1" |} db_events
  = (Raise (HTTPException 401 "Incorrect username or password"), db_events).
Proof.
  split; apply login_rejects_unknown_or_wrong;
    intros u Hin Hname; simpl in Hin;
    destruct Hin as [<-|[<-|[<-|[]]]]; simpl in *; discriminate.
Defined.

Lemma signup_again_conflicts_witness :
  signup demo_digest
    {| UserCreate.username := "dave"; UserCreate.email := "other@x.com";
       UserCreate.password := "another1" |}
    (snd (signup demo_digest
            {| UserCreate.username := "dave"; UserCreate.email := "dave@x.com";
               UserCreate.password := "opensesame" |} db_events))
  = (Raise (HTTPException 400 "Username or Email already exists."),
     snd (signup demo_digest
            {| UserCreate.username := "dave"; UserCreate.email := "dave@x.com";
               UserCreate.password := "opensesame" |} db_events)).
Proof.
  apply (signup_again_conflicts demo_digest
           {| UserCreate.username := "dave"; UserCreate.email := "dave@x.com";
              UserCreate.password := "opensesame" |}
           db_events _ _ _ eq_refl).
  left. reflexivity.
Defined.

(** ** Event routes: create, list, update, delete *)

Lemma firstn_add {A : Type} (a b : nat) (l : list A) :
  firstn (a + b) l = firstn a l ++ firstn b (skipn a l).
Proof.
  revert l. induction a as [|a IH]; intros l; [reflexivity|].
  destruct l as [|x l]; simpl.
  - destruct b; reflexivity.
  - rewrite IH. reflexivity.
Qed.

Lemma in_firstn {A : Type} (n : nat) (l : list A) (x : A) :
  In x (firstn n l) -> In x l.
Proof.
  revert l. induction n as [|n IH]; intros [|a l]; simpl; try tauto.
  intros [H|H]; [left; exact H | right; exact (IH l H)].
Qed.

Lemma in_skipn {A : Type} (n : nat) (l : list A) (x : A) :
  In x (skipn n l) -> In x l.
Proof.
  revert l. induction n as [|n IH]; intros [|a l]; simpl; try tauto.
  intros H. right. exact (IH l H).
Qed.

(** X7. Creating an event, on a table with well-formed ids, appends one
    row that carries the request's fields and the caller as owner; the
    caller then reads it back with get by the id in the response, and any
    caller with another id is answered not-found for that id. *)
Theorem create_event_then_get (event_data : EventCreate.t) (user : User.t)
    (db : Database) :
  pk_ok (map Event.id (events db)) (events_seq db) ->
  exists event db1,
    create_event event_data user db = (Ok event, db1) /\
    db1 = with_events db (events db ++ [event]) (events_seq db + 1) /\
    Event.owner_id event = User.id user /\
    Event.title event = EventCreate.title event_data /\
    Event.description event = EventCreate.description event_data /\
    Event.date event = EventCreate.date event_data /\
    Event.location event = EventCreate.location event_data /\
    get_event (Event.id event) user db1 = (Ok event, db1) /\
    (forall other,
        User.id other <> User.id user ->
        get_event (Event.id event) other db1 = (Raise event_not_found, db1)).
Proof.
  intros [_ Hlt].
  eexists. eexists. split; [reflexivity|].
  split; [reflexivity|]. repeat (split; [reflexivity|]).
  assert (Hold : forall caller,
             find (owned_by (events_seq db) caller) (events db) = None).
  { intros caller. apply find_none_iff. intros e He.
    unfold owned_by. rewrite Forall_forall in Hlt.
    assert (Event.id e < events_seq db) by (apply Hlt; apply in_map; exact He).
    destruct (Z.eqb_spec (Event.id e) (events_seq db)); [lia | reflexivity]. }
  split.
  - unfold get_event, query_owned_event. cbn [events with_events Event.id].
    rewrite find_snoc by apply Hold.
    unfold owned_by. cbn [Event.id Event.owner_id]. rewrite !Z.eqb_refl.
    reflexivity.
  - intros other Hother.
    unfold get_event, query_owned_event. cbn [events with_events Event.id].
    rewrite find_snoc by apply Hold.
    unfold owned_by. cbn [Event.id Event.owner_id].
    apply not_eq_sym in Hother. apply Z.eqb_neq in Hother. rewrite Hother.
    rewrite andb_false_r. reflexivity.
Qed.

(** X8. Listing events, with a skip and a limit that are not negative,
    writes nothing and answers with events of the table that the caller
    owns, at most [limit] of them; with skip 0 and a limit that is not
    below the number of the caller's events, the answer is all of the
    caller's events, in table order. *)
Theorem list_events_only_own (skip limit : Z) (user : User.t) (db : Database) :
  0 <= skip -> 0 <= limit ->
  exists page,
    list_events skip limit user db = (Ok page, db) /\
    Forall (fun e => In e (events db) /\ Event.owner_id e = User.id user)
           page /\
    Z.of_nat (List.length page) <= limit /\
    (skip = 0 ->
     Z.of_nat (List.length (filter (owner_is user) (events db))) <= limit ->
     page = filter (owner_is user) (events db)).
Proof.
  intros Hskip Hlimit. eexists. split; [reflexivity|]. split; [|split].
  - apply Forall_forall. intros e He.
    apply in_firstn, in_skipn in He. apply filter_In in He.
    destruct He as [Hin Hown]. split; [exact Hin|].
    apply Z.eqb_eq. exact Hown.
  - pose proof (firstn_le_length (Z.to_nat limit)
                  (skipn (Z.to_nat skip) (filter (owner_is user) (events db)))).
    lia.
  - intros -> Hall. simpl skipn. apply firstn_all2. lia.
Qed.

(** X9. Pages of the event list fit together: for a skip and limits that
    are not negative, the page of [limit1] events after [skip], followed
    by the page of [limit2] events after [skip + limit1], is the page of
    [limit1 + limit2] events after [skip]. *)
Theorem list_events_pages_concat (skip limit1 limit2 : Z) (user : User.t)
    (db : Database) :
  0 <= skip -> 0 <= limit1 -> 0 <= limit2 ->
  exists page1 page2,
    list_events skip limit1 user db = (Ok page1, db) /\
    list_events (skip + limit1) limit2 user db = (Ok page2, db) /\
    list_events skip (limit1 + limit2) user db = (Ok (page1 ++ page2), db).
Proof.
  intros Hskip H1 H2. eexists. eexists.
  split; [reflexivity|]. split; [reflexivity|].
  unfold list_events. do 2 f_equal.
  rewrite !Z2Nat.inj_add by assumption.
  rewrite firstn_add. f_equal. f_equal.
  rewrite skipn_skipn. f_equal. lia.
Qed.

(** X10. An update is read back: on a table with unique event ids, after
    a successful update the caller's get of the same id answers with the
    event that the update returned. *)
Theorem update_event_then_get (db : Database) (user : User.t) (event_id : Z)
    (event_update : EventUpdate.t) (event' : Event.t) (db1 : Database) :
  NoDup (map Event.id (events db)) ->
  update_event event_id event_update user db = (Ok event', db1) ->
  get_event event_id user db1 = (Ok event', db1).
Proof.
  intros Hnd. unfold update_event.
  destruct (query_owned_event event_id user db) as [event|] eqn:Hev;
    [|discriminate].
  apply query_owned_event_some in Hev. destruct Hev as (Hin & Hid & Hown).
  destruct (setattr (Some (Event.title event)) _) as [t|]; [|discriminate].
  destruct (setattr (Some (Event.date event)) _) as [d|]; [|discriminate].
  destruct (setattr (Some (Event.location event)) _) as [l|]; [|discriminate].
  intros H. inversion H as [[Hevent Hdb]]. clear H.
  set (new := {| Event.id := Event.id event; Event.title := t;
                 Event.description :=
                   setattr (Event.description event)
                           (EventUpdate.description event_update);
                 Event.date := d; Event.location := l;
                 Event.owner_id := Event.owner_id event |}) in *.
  set (db' := with_events db (map (update_row (Event.id event) new) (events db))
                          (events_seq db)).
  assert (Hfound : query_owned_event (Event.id new) user db' = Some new).
  { apply query_owned_event_found.
    - unfold db'. cbn [events with_events]. rewrite map_id_update_row.
      exact Hnd.
    - unfold db'. cbn [events with_events].
      apply in_map_iff. exists event. split; [|exact Hin].
      unfold update_row. rewrite Z.eqb_refl. reflexivity.
    - exact Hown. }
  unfold get_event. rewrite <- Hid. change (Event.id event) with (Event.id new).
  rewrite Hfound. reflexivity.
Qed.

(** X11. Deleting an event takes its guests and RSVPs with it and nothing
    else: after a successful delete the users are as before; the events,
    guests and RSVPs are those of before that do not carry the id; and for
    every caller the id is now answered not-found by get, by the guest
    list and by the RSVP submit, and RSVP-not-found by the RSVP read. *)
Theorem delete_event_cascades (event_id : Z) (user : User.t) (db : Database)
    (msg : string) (db1 : Database) :
  delete_event event_id user db = (Ok msg, db1) ->
  users db1 = users db /\
  (forall e, In e (events db1) <->
             In e (events db) /\ Event.id e <> event_id) /\
  (forall g, In g (guests db1) <->
             In g (guests db) /\ Guest.event_id g <> event_id) /\
  (forall r, In r (rsvps db1) <->
             In r (rsvps db) /\ RSVP.event_id r <> event_id) /\
  (forall caller,
      get_event event_id caller db1 = (Raise event_not_found, db1) /\
      list_guests event_id caller db1 = (Raise event_not_found, db1) /\
      get_my_rsvp_status event_id caller db1
      = (Raise (HTTPException 404 "RSVP not found"), db1) /\
      forall rsvp,
        rsvp_to_event event_id rsvp caller db1 = (Raise event_not_found, db1)).
Proof.
  unfold delete_event.
  destruct (query_owned_event event_id user db) as [event|] eqn:Hev;
    [|discriminate].
  apply query_owned_event_some in Hev. destruct Hev as (_ & Hid & _).
  rewrite Hid. intros H. inversion H as [[Hmsg Hdb]]. clear H.
  assert (Hevents : forall e,
             In e (filter (fun e => negb (Event.id e =? event_id)) (events db))
             <-> In e (events db) /\ Event.id e <> event_id).
  { intros e. rewrite filter_In, negb_true_iff, Z.eqb_neq. reflexivity. }
  assert (Hrsvps : forall r,
             In r (filter (fun r => negb (RSVP.event_id r =? event_id)) (rsvps db))
             <-> In r (rsvps db) /\ RSVP.event_id r <> event_id).
  { intros r. rewrite filter_In, negb_true_iff, Z.eqb_neq. reflexivity. }
  split; [reflexivity|]. split; [exact Hevents|]. split; [|split].
  - intros g. cbn [guests]. rewrite filter_In, negb_true_iff, Z.eqb_neq.
    reflexivity.
  - exact Hrsvps.
  - intros caller.
    assert (Hnone : query_owned_event event_id caller
                      {| users := users db;
                         events := filter (fun e => negb (Event.id e =? event_id))
                                          (events db);
                         guests := filter (fun g => negb (Guest.event_id g =? event_id))
                                          (guests db);
                         rsvps := filter (fun r => negb (RSVP.event_id r =? event_id))
                                         (rsvps db);
                         users_seq := users_seq db; events_seq := events_seq db;
                         guests_seq := guests_seq db; rsvps_seq := rsvps_seq db |}
                    = None).
    { apply query_owned_event_none. cbn [events]. intros e He Heq.
      apply Hevents in He. tauto. }
    split; [|split; [|split]].
    + unfold get_event. rewrite Hnone. reflexivity.
    + unfold list_guests. rewrite Hnone. reflexivity.
    + unfold get_my_rsvp_status.
      replace (query_rsvp event_id (User.id caller) _) with (@None RSVP.t);
        [reflexivity|].
      symmetry. unfold query_rsvp. apply find_none_iff. cbn [rsvps].
      intros r Hr. apply Hrsvps in Hr. destruct Hr as [_ Hne].
      unfold rsvp_matches. apply Z.eqb_neq in Hne. rewrite Hne. reflexivity.
    + intros rsvp. apply rsvp_to_event_not_found.
      apply query_event_none. cbn [events]. intros e He.
      apply Hevents in He. tauto.
Qed.

(** Carol creates an event and reads it back. *)
Lemma create_event_then_get_witness :
  exists event db1,
    create_event {| EventCreate.title := "Quiz"; EventCreate.description := None;
                    EventCreate.date := 1772323200;
                    EventCreate.location := "Pub" |} carol db_events
    = (Ok event, db1) /\
    Event.owner_id event = 3 /\
    get_event (Event.id event) carol db1 = (Ok event, db1).
Proof.
  destruct (create_event_then_get
              {| EventCreate.title := "Quiz"; EventCreate.description := None;
                 EventCreate.date := 1772323200;
                 EventCreate.location := "Pub" |} carol db_events)
    as (event & db1 & Hcreate & _ & Howner & _ & _ & _ & _ & Hget & _).
  - split; [apply distinct_NoDup; reflexivity|].
    repeat constructor; simpl; lia.
  - exists event, db1. repeat split; assumption.
Defined.

(** Alice lists her events with the default skip and limit. *)
Lemma list_events_only_own_witness :
  list_events 0 50 alice db_events = (Ok [party], db_events).
Proof.
  destruct (list_events_only_own 0 50 alice db_events)
    as (page & Hlist & _ & _ & Hall); [lia | lia |].
  rewrite Hlist. rewrite Hall; [reflexivity | reflexivity | simpl; lia].
Defined.

Lemma list_events_pages_concat_witness :
  exists page1 page2,
    list_events 0 1 bob db_events = (Ok page1, db_events) /\
    list_events 1 5 bob db_events = (Ok page2, db_events) /\
    list_events 0 6 bob db_events = (Ok (page1 ++ page2), db_events).
Proof.
  destruct (list_events_pages_concat 0 1 5 bob db_events)
    as (page1 & page2 & H1 & H2 & H3); try lia.
  exists page1, page2. repeat split; assumption.
Defined.

(** Alice renames her party and reads it back. *)
Lemma update_event_then_get_witness :
  exists event',
    get_event 1 alice
      (snd (update_event 1
              {| EventUpdate.title := Some (Some "Garden party");
                 EventUpdate.description := None; EventUpdate.date := None;
                 EventUpdate.location := None |} alice db_events))
    = (Ok event',
       snd (update_event 1
              {| EventUpdate.title := Some (Some "Garden party");
                 EventUpdate.description := None; EventUpdate.date := None;
                 EventUpdate.location := None |} alice db_events)) /\
    Event.title event' = "Garden party".
Proof.
  eexists. split.
  - apply (update_event_then_get db_events alice 1
             {| EventUpdate.title := Some (Some "Garden party");
                EventUpdate.description := None; EventUpdate.date := None;
                EventUpdate.location := None |}).
    + apply distinct_NoDup. reflexivity.
    + reflexivity.
  - reflexivity.
Defined.

(** Alice deletes her party, to which bob was invited. *)
Lemma delete_event_cascades_witness :
  guests (snd (delete_event 1 alice db_invited)) = [] /\
  get_event 1 alice (snd (delete_event 1 alice db_invited))
  = (Raise event_not_found, snd (delete_event 1 alice db_invited)).
Proof.
  destruct (delete_event_cascades 1 alice db_invited "Event deleted"
              (snd (delete_event 1 alice db_invited)) eq_refl)
    as (_ & _ & _ & _ & Hgone).
  split; [reflexivity|]. exact (proj1 (Hgone alice)).
Defined.

(** ** Guest, invite and RSVP routes together *)

Lemma filter_all {A : Type} (f : A -> bool) (l : list A) :
  (forall x, In x l -> f x = true) -> filter f l = l.
Proof.
  induction l as [|a l IH]; intros H; simpl; [reflexivity|].
  rewrite (H a (or_introl eq_refl)). f_equal. apply IH.
  intros x Hx. apply H. right. exact Hx.
Qed.

Lemma filter_none {A : Type} (f : A -> bool) (l : list A) :
  (forall x, In x l -> f x = false) -> filter f l = [].
Proof.
  induction l as [|a l IH]; intros H; simpl; [reflexivity|].
  rewrite (H a (or_introl eq_refl)). apply IH.
  intros x Hx. apply H. right. exact Hx.
Qed.

Lemma find_map_stable {A : Type} (f : A -> bool) (g : A -> A) (l : list A) :
  (forall x, f (g x) = f x) ->
  find f (map g l) = option_map g (find f l).
Proof.
  intros Hstable. induction l as [|a l IH]; simpl; [reflexivity|].
  rewrite Hstable. destruct (f a); [reflexivity | exact IH].
Qed.

Lemma invite_guests_ok_owned event_id invite_request user db rows db1 :
  invite_guests event_id invite_request user db = (Ok rows, db1) ->
  exists event, query_owned_event event_id user db = Some event.
Proof.
  unfold invite_guests, invite_guests_in.
  destruct (query_owned_event event_id user db) as [event|];
    [exists event; reflexivity | discriminate].
Qed.

(** X12. The single-guest route has no duplicate check: for an event the
    caller owns it always appends exactly one guest row, with the given
    name and email, also when the event already has a guest with that
    email, so the rows of the (event, email) pair grow by the new one. *)
Theorem add_guest_always_appends (event_id : Z) (guest : GuestCreate.t)
    (user : User.t) (db : Database) (event : Event.t) :
  query_owned_event event_id user db = Some event ->
  exists new_guest db1,
    add_guest event_id guest user db = (Ok new_guest, db1) /\
    db1 = with_guests db (guests db ++ [new_guest]) (guests_seq db + 1) /\
    new_guest = {| Guest.id := guests_seq db; Guest.event_id := event_id;
                   Guest.name := GuestCreate.name guest;
                   Guest.email := GuestCreate.email guest;
                   Guest.invited_by_user_id := User.id user;
                   Guest.responded := false |} /\
    guest_rows event_id (GuestCreate.email guest) db1
    = guest_rows event_id (GuestCreate.email guest) db ++ [new_guest].
Proof.
  intros Hev. unfold add_guest. rewrite Hev.
  apply query_owned_event_some in Hev. destruct Hev as (_ & Hid & _).
  rewrite Hid. eexists. eexists. split; [reflexivity|].
  split; [reflexivity|]. split; [reflexivity|].
  unfold guest_rows. cbn [guests with_guests]. rewrite filter_app_one.
  unfold guest_matches at 2. cbn [Guest.event_id Guest.email].
  rewrite Z.eqb_refl, String.eqb_refl. reflexivity.
Qed.

(** X13. The guest list shows what an invite added: for an event the
    caller owns, the guest list after a batch invite is the guest list
    before it followed by the guests in the invite's response. *)
Theorem invite_then_list_guests (event_id : Z)
    (invite_request : InviteRequest.t) (user : User.t) (db : Database)
    (rows : list Guest.t) (db1 : Database) :
  invite_guests event_id invite_request user db = (Ok rows, db1) ->
  exists before,
    list_guests event_id user db = (Ok before, db) /\
    list_guests event_id user db1 = (Ok (before ++ rows), db1).
Proof.
  intros Hinvite.
  destruct (invite_guests_ok_owned _ _ _ _ _ _ Hinvite) as [event Hev].
  pose proof (invite_guests_owned event_id invite_request user db event Hev)
    as Hcall. cbv zeta in Hcall. rewrite Hcall in Hinvite.
  inversion Hinvite as [[Hrows Hdb]]. clear Hinvite.
  exists (filter (guest_of event_id) (guests db)).
  unfold list_guests.
  assert (Hev1 : query_owned_event event_id user
                   (with_guests db (guests db ++ rows)
                      (guests_seq db + Z.of_nat (List.length rows)))
                 = Some event) by exact Hev.
  rewrite Hev. split; [reflexivity|].
  rewrite Hrows, Hev1. cbn [guests with_guests].
  rewrite filter_app. do 3 f_equal.
  apply filter_all. intros g Hg. rewrite <- Hrows in Hg.
  pose proof (numbered_invited_shape event_id user
                (filter (is_new event_id db)
                        (InviteRequest.guest_emails invite_request))
                (guests_seq db)) as Hshape.
  rewrite Forall_forall in Hshape. destruct (Hshape g Hg) as [Hid _].
  unfold guest_of. apply Z.eqb_eq. exact Hid.
Qed.

(** X14. An RSVP is read back: after a successful submit, the caller's
    RSVP read for the same event answers with the row that the submit
    returned, which carries the submitted status. *)
Theorem rsvp_then_get_my_status (event_id : Z) (rsvp : RSVPCreate.t)
    (user : User.t) (db : Database) (r : RSVP.t) (db1 : Database) :
  rsvp_to_event event_id rsvp user db = (Ok r, db1) ->
  get_my_rsvp_status event_id user db1 = (Ok r, db1) /\
  RSVP.status r = RSVPCreate.status rsvp.
Proof.
  intros Hok. pose proof (rsvp_to_event_ok_cases _ _ _ _ _ _ Hok) as Hcases.
  unfold get_my_rsvp_status.
  destruct (query_rsvp event_id (User.id user) db) as [r0|] eqn:Hq;
    destruct Hcases as [Hr Hdb].
  - assert (Hfind : query_rsvp event_id (User.id user) db1 = Some r).
    { rewrite Hdb. unfold query_rsvp in *. cbn [rsvps with_rsvps].
      rewrite find_map_stable by (intros x; apply rsvp_matches_set_status).
      rewrite Hq. cbn [option_map]. f_equal.
      unfold set_status. rewrite Z.eqb_refl. symmetry. exact Hr. }
    rewrite Hfind. split; [reflexivity | rewrite Hr; reflexivity].
  - assert (Hfind : query_rsvp event_id (User.id user) db1 = Some r).
    { rewrite Hdb. unfold query_rsvp in *. cbn [rsvps with_rsvps].
      rewrite find_snoc by exact Hq.
      assert (Hm : rsvp_matches event_id (User.id user) r = true)
        by (rewrite Hr; apply rsvp_matches_true; split; reflexivity).
      rewrite Hm. reflexivity. }
    rewrite Hfind. split; [reflexivity | rewrite Hr; reflexivity].
Qed.

(** After an invite, every email of the request has a guest row. *)
Lemma invite_guests_covers event_id invite_request user db rows db1 email :
  invite_guests event_id invite_request user db = (Ok rows, db1) ->
  In email (InviteRequest.guest_emails invite_request) ->
  guest_rows event_id email db1 <> [].
Proof.
  intros Hinvite Hin Hempty.
  destruct (invite_guests_ok_owned _ _ _ _ _ _ Hinvite) as [event Hev].
  pose proof (invite_guests_rows event_id invite_request user db event email Hev)
    as Hlen.
  rewrite Hinvite in Hlen. cbn [snd] in Hlen. rewrite Hempty in Hlen.
  simpl in Hlen.
  destruct (is_new event_id db email) eqn:Hnew.
  - pose proof (proj1 (count_occ_In string_dec _ email) Hin). lia.
  - destruct (guest_rows event_id email db) eqn:Hrows; [|simpl in Hlen; lia].
    apply is_new_iff_no_rows in Hrows. congruence.
Qed.

(** X15. Inviting is idempotent from one call to the next: after a
    successful batch invite, the same request again succeeds, creates no
    guest, answers with an empty list and leaves the database as the
    first call left it. *)
Theorem invite_guests_again_adds_nothing (event_id : Z)
    (invite_request : InviteRequest.t) (user : User.t) (db : Database)
    (rows : list Guest.t) (db1 : Database) :
  invite_guests event_id invite_request user db = (Ok rows, db1) ->
  invite_guests event_id invite_request user db1 = (Ok [], db1).
Proof.
  intros Hinvite.
  destruct (invite_guests_ok_owned _ _ _ _ _ _ Hinvite) as [event Hev].
  assert (Hnone : filter (is_new event_id db1)
                         (InviteRequest.guest_emails invite_request) = []).
  { apply filter_none. intros email Hin.
    destruct (is_new event_id db1 email) eqn:Hnew; [|reflexivity].
    apply is_new_iff_no_rows in Hnew.
    exfalso. exact (invite_guests_covers _ _ _ _ _ _ _ Hinvite Hin Hnew). }
  pose proof (invite_guests_owned event_id invite_request user db event Hev)
    as Hcall. cbv zeta in Hcall. rewrite Hcall in Hinvite.
  injection Hinvite as Hrows Hdb.
  assert (Hev1 : query_owned_event event_id user db1 = Some event)
    by (rewrite <- Hdb; exact Hev).
  pose proof (invite_guests_owned event_id invite_request user db1 event Hev1)
    as Hagain. cbv zeta in Hagain.
  rewrite Hnone in Hagain. cbn [map numbered List.length Z.of_nat] in Hagain.
  rewrite Hagain. f_equal.
  rewrite app_nil_r, Z.add_0_r. rewrite <- Hdb. reflexivity.
Qed.

(** X16. An invited user can answer: after a successful batch invite,
    every user whose email is in the request can submit an RSVP to the
    event; the submit succeeds and returns a row with the submitted
    status for that user and event. *)
Theorem invited_user_can_rsvp (event_id : Z) (invite_request : InviteRequest.t)
    (owner : User.t) (db : Database) (rows : list Guest.t) (db1 : Database)
    (guest_user : User.t) (rsvp : RSVPCreate.t) :
  invite_guests event_id invite_request owner db = (Ok rows, db1) ->
  In (User.email guest_user) (InviteRequest.guest_emails invite_request) ->
  exists r db2,
    rsvp_to_event event_id rsvp guest_user db1 = (Ok r, db2) /\
    RSVP.status r = RSVPCreate.status rsvp /\
    RSVP.event_id r = event_id /\
    RSVP.user_id r = User.id guest_user.
Proof.
  intros Hinvite Hin.
  pose proof (invite_guests_covers _ _ _ _ _ _ _ Hinvite Hin) as Hrows.
  destruct (invite_guests_ok_owned _ _ _ _ _ _ Hinvite) as [event Hev].
  assert (Hevents : events db1 = events db).
  { pose proof (invite_guests_owned event_id invite_request owner db event Hev)
      as Hcall. cbv zeta in Hcall. rewrite Hcall in Hinvite.
    inversion Hinvite. reflexivity. }
  assert (Hinvited : invited event_id guest_user db1).
  { apply query_guest_invited. unfold query_guest. rewrite find_hd_filter.
    unfold guest_rows in Hrows.
    destruct (filter (guest_matches event_id (User.email guest_user))
                     (guests db1)) as [|g rest]; [contradiction|].
    exists g. reflexivity. }
  destruct (query_event event_id db1) as [e|] eqn:He.
  - destruct (rsvp_to_event_allowed event_id rsvp guest_user db1 e He
                (or_intror Hinvited)) as (r & db2 & Hok).
    exists r, db2. split; [exact Hok|].
    pose proof (rsvp_to_event_ok_cases _ _ _ _ _ _ Hok) as Hcases.
    destruct (query_rsvp event_id (User.id guest_user) db1) as [r0|] eqn:Hq;
      destruct Hcases as [-> _]; cbn; repeat split.
    + unfold query_rsvp in Hq. destruct (find_some _ _ Hq) as [_ Hm].
      apply rsvp_matches_true in Hm. tauto.
    + unfold query_rsvp in Hq. destruct (find_some _ _ Hq) as [_ Hm].
      apply rsvp_matches_true in Hm. tauto.
  - exfalso. apply query_owned_event_some in Hev.
    destruct Hev as (Hine & Hid & _).
    rewrite <- Hevents in Hine.
    exact (proj1 (query_event_none _ _) He event Hine Hid).
Qed.

Lemma split_head_shape (sep : ascii) (s : string) :
  exists piece pieces,
    split sep s = piece :: pieces /\
    free_of sep piece /\
    (s = piece \/ exists rest, s = String.append piece (String sep rest)).
Proof.
  induction s as [|c s IH].
  - exists EmptyString, []. simpl. repeat split. left. reflexivity.
  - simpl. destruct (Ascii.eqb_spec c sep) as [->|Hne].
    + exists EmptyString, (split sep s). simpl. repeat split.
      right. exists s. reflexivity.
    + destruct IH as (piece & pieces & -> & Hfree & Hshape).
      exists (String c piece), pieces. simpl. repeat split; try assumption.
      destruct Hshape as [->|[rest ->]]; [left; reflexivity|].
      right. exists rest. reflexivity.
Qed.

(** X18. The display name that an invite derives from an email never
    contains an at sign, and the email is either the name itself (when
    the email has no at sign) or the name, an at sign and a rest: the
    name is the part of the email before its first at sign. *)
Theorem email_prefix_before_first_at (email : string) :
  free_of "@"%char (email_prefix email) /\
  (email = email_prefix email \/
   exists rest,
     email = String.append (email_prefix email) (String "@"%char rest)).
Proof.
  unfold email_prefix.
  destruct (split_head_shape "@"%char email)
    as (piece & pieces & -> & Hfree & Hshape).
  simpl. split; assumption.
Qed.

(** Alice adds bob by hand, though he is invited already. *)
Lemma add_guest_always_appends_witness :
  exists new_guest db1,
    add_guest 1 {| GuestCreate.name := "Bob"; GuestCreate.email := "bob@x.com" |}
              alice db_invited = (Ok new_guest, db1) /\
    guest_rows 1 "bob@x.com" db1 = [bob_at_party; new_guest].
Proof.
  destruct (add_guest_always_appends 1
              {| GuestCreate.name := "Bob"; GuestCreate.email := "bob@x.com" |}
              alice db_invited party eq_refl)
    as (new_guest & db1 & Hadd & _ & _ & Hrows).
  exists new_guest, db1. split; [exact Hadd | exact Hrows].
Defined.

(** Alice invites dan and looks at the guest list. *)
Lemma invite_then_list_guests_witness :
  exists rows db1,
    invite_guests 1 {| InviteRequest.guest_emails := ["dan@x.com"] |}
                  alice db_invited = (Ok rows, db1) /\
    list_guests 1 alice db1 = (Ok (bob_at_party :: rows), db1).
Proof.
  eexists. eexists. split; [reflexivity|].
  destruct (invite_then_list_guests 1
              {| InviteRequest.guest_emails := ["dan@x.com"] |}
              alice db_invited _ _ eq_refl) as (before & Hbefore & Hafter).
  injection Hbefore as <-. exact Hafter.
Defined.

(** Bob answers the invitation and reads his answer. *)
Lemma rsvp_then_get_my_status_witness :
  exists r db1,
    rsvp_to_event 1 {| RSVPCreate.status := "maybe" |} bob db_invited
    = (Ok r, db1) /\
    get_my_rsvp_status 1 bob db1 = (Ok r, db1).
Proof.
  eexists. eexists. split; [reflexivity|].
  exact (proj1 (rsvp_then_get_my_status 1 {| RSVPCreate.status := "maybe" |}
                  bob db_invited _ _ eq_refl)).
Defined.

(** Alice sends the same invitation twice. *)
Lemma invite_guests_again_adds_nothing_witness :
  invite_guests 1 {| InviteRequest.guest_emails := ["bob@x.com"; "dan@x.com"] |}
    alice
    (snd (invite_guests 1
            {| InviteRequest.guest_emails := ["bob@x.com"; "dan@x.com"] |}
            alice db_events))
  = (Ok [],
     snd (invite_guests 1
            {| InviteRequest.guest_emails := ["bob@x.com"; "dan@x.com"] |}
            alice db_events)).
Proof.
  exact (invite_guests_again_adds_nothing 1
           {| InviteRequest.guest_emails := ["bob@x.com"; "dan@x.com"] |}
           alice db_events _ _ eq_refl).
Defined.

(** Alice invites bob; bob accepts. *)
Lemma invited_user_can_rsvp_witness :
  exists r db2,
    rsvp_to_event 1 {| RSVPCreate.status := "accepted" |} bob
      (snd (invite_guests 1 {| InviteRequest.guest_emails := ["bob@x.com"] |}
              alice db_events))
    = (Ok r, db2) /\
    RSVP.status r = "accepted".
Proof.
  destruct (invited_user_can_rsvp 1
              {| InviteRequest.guest_emails := ["bob@x.com"] |}
              alice db_events _ _ bob {| RSVPCreate.status := "accepted" |}
              eq_refl)
    as (r & db2 & Hok & Hstatus & _).
  - left. reflexivity.
  - exists r, db2. split; [exact Hok | exact Hstatus].
Defined.

(** Alice invites bob, who is a guest already, and dan, who is not. *)
Lemma invite_distinct_emails_one_row_witness :
  List.length
    (guest_rows 1 "bob@x.com"
       (snd (invite_guests 1
               {| InviteRequest.guest_emails := ["bob@x.com"; "dan@x.com"] |}
               alice db_invited))) = 1%nat /\
  List.length
    (guest_rows 1 "dan@x.com"
       (snd (invite_guests 1
               {| InviteRequest.guest_emails := ["bob@x.com"; "dan@x.com"] |}
               alice db_invited))) = 1%nat.
Proof.
  assert (Hnd : NoDup ["bob@x.com"; "dan@x.com"]).
  { repeat constructor; simpl; intuition discriminate. }
  split;
    apply (invite_distinct_emails_one_row 1
             {| InviteRequest.guest_emails := ["bob@x.com"; "dan@x.com"] |}
             alice db_invited party);
    try reflexivity; try exact Hnd; simpl; try lia; tauto.
Defined.

(** ** What the guest and RSVP routes leave alone *)

(** X19. The guest routes are owner-only: on a table with unique event
    ids, a caller who does not own an existing event is answered
    not-found when adding a guest to it, inviting to it or listing its
    guests, and nothing is written. *)
Theorem guest_routes_owner_only (db : Database) (user : User.t)
    (event : Event.t) :
  NoDup (map Event.id (events db)) ->
  In event (events db) ->
  Event.owner_id event <> User.id user ->
  (forall guest,
      add_guest (Event.id event) guest user db = (Raise event_not_found, db)) /\
  (forall invite_request,
      invite_guests (Event.id event) invite_request user db
      = (Raise event_not_found, db)) /\
  list_guests (Event.id event) user db = (Raise event_not_found, db).
Proof.
  intros Hnd Hin Hown.
  assert (Hnone : query_owned_event (Event.id event) user db = None).
  { apply query_owned_event_none. intros e He Hid Howner.
    assert (e = event) by (eapply nodup_key_eq; eauto). subst e.
    contradiction. }
  unfold add_guest, invite_guests, invite_guests_in, list_guests.
  rewrite Hnone. repeat split.
Qed.

Lemma guest_routes_owner_only_witness :
  invite_guests 2 {| InviteRequest.guest_emails := ["carol@x.com"] |}
                alice db_invited
  = (Raise event_not_found, db_invited) /\
  list_guests 2 alice db_invited = (Raise event_not_found, db_invited).
Proof.
  destruct (guest_routes_owner_only db_invited alice picnic)
    as (_ & Hinvite & Hlist).
  - apply distinct_NoDup. reflexivity.
  - simpl. right. left. reflexivity.
  - simpl. lia.
  - split; [apply Hinvite | exact Hlist].
Defined.

Lemma map_fixed {A : Type} (g : A -> A) (l : list A) :
  (forall x, In x l -> g x = x) -> map g l = l.
Proof.
  intros H. rewrite <- (map_id l) at 2. apply map_ext_in. exact H.
Qed.

(** X20. A submit writes the caller's own answer only: on a table with
    unique RSVP ids, after a successful submit the RSVP rows of every
    other (event, user) pair are exactly as before, and users, events and
    guests are untouched. *)
Theorem rsvp_leaves_other_pairs (event_id : Z) (rsvp : RSVPCreate.t)
    (user : User.t) (db : Database) (r : RSVP.t) (db1 : Database)
    (event_id' user_id' : Z) :
  NoDup (map RSVP.id (rsvps db)) ->
  rsvp_to_event event_id rsvp user db = (Ok r, db1) ->
  event_id' <> event_id \/ user_id' <> User.id user ->
  rsvp_rows event_id' user_id' db1 = rsvp_rows event_id' user_id' db /\
  users db1 = users db /\ events db1 = events db /\ guests db1 = guests db.
Proof.
  intros Hnd Hok Hother.
  pose proof (rsvp_to_event_ok_cases _ _ _ _ _ _ Hok) as Hcases.
  assert (Hpair : forall x,
             RSVP.event_id x = event_id -> RSVP.user_id x = User.id user ->
             rsvp_matches event_id' user_id' x = false).
  { intros x He Hu. unfold rsvp_matches. rewrite He, Hu.
    destruct Hother as [H|H]; apply not_eq_sym, Z.eqb_neq in H; rewrite H;
      [reflexivity | apply andb_false_r]. }
  destruct (query_rsvp event_id (User.id user) db) as [r0|] eqn:Hq;
    destruct Hcases as [Hr ->]; unfold rsvp_rows; cbn [rsvps with_rsvps users
                                                         events guests];
    (split; [|repeat split]).
  - unfold query_rsvp in Hq. destruct (find_some _ _ Hq) as [Hin0 Hm0].
    apply rsvp_matches_true in Hm0. destruct Hm0 as [He0 Hu0].
    rewrite rsvp_rows_set_status. apply map_fixed. intros x Hx.
    apply filter_In in Hx. destruct Hx as [Hxin Hxm].
    unfold set_status.
    destruct (Z.eqb_spec (RSVP.id x) (RSVP.id r0)) as [Hid|_]; [|reflexivity].
    exfalso.
    assert (x = r0) by (eapply nodup_key_eq; eauto). subst x.
    rewrite (Hpair r0 He0 Hu0) in Hxm. discriminate.
  - rewrite filter_app_one. rewrite (Hpair r); [apply app_nil_r | |];
      rewrite Hr; reflexivity.
Qed.

(** Bob has answered; alice's answer to her own party leaves his alone. *)
Lemma rsvp_leaves_other_pairs_witness :
  rsvp_rows 1 2
    (snd (rsvp_to_event 1 {| RSVPCreate.status := "accepted" |} alice
            (snd (rsvp_to_event 1 {| RSVPCreate.status := "maybe" |} bob
                    db_invited))))
  = rsvp_rows 1 2
      (snd (rsvp_to_event 1 {| RSVPCreate.status := "maybe" |} bob db_invited)).
Proof.
  refine (proj1 (rsvp_leaves_other_pairs 1 {| RSVPCreate.status := "accepted" |}
                   alice
                   (snd (rsvp_to_event 1 {| RSVPCreate.status := "maybe" |} bob
                           db_invited))
                   _ _ 1 2 _ eq_refl _)).
  - apply distinct_NoDup. reflexivity.
  - right. simpl. lia.
Defined.

(** ** The gate on a string subject *)

Section GateProperties.

Variable SECRET_KEY : string.
Variable jws_verify : string -> string -> list string -> option dict.

(** A token whose verified payload has a string subject that spells the
    id of a user is resolved by the gate to the first user with that id,
    and nothing is written: what the gate rejects of a login token is the
    integer type of its subject, not the id. *)
Lemma gate_resolves_string_subject (token s : string) (z : Z) (db : Database)
    (user : User.t) :
  jws_verify token SECRET_KEY [ALGORITHM] = Some [("sub", JStr s)] ->
  integer_of_string s = Some z ->
  find (fun u => User.id u =? z) (users db) = Some user ->
  get_current_user SECRET_KEY jws_verify token db = (Ok user, db) /\
  User.id user = z.
Proof using Type.
  intros Hverify Hspell Hfind.
  unfold get_current_user, jwt_decode. rewrite Hverify. simpl.
  unfold id_equals. rewrite Hspell.
  replace (find (fun u => User.id u =? z) (users db)) with (Some user).
  split; [reflexivity|].
  destruct (find_some _ _ Hfind) as [_ Hid]. apply Z.eqb_eq. exact Hid.
Qed.

End GateProperties.

(** With the stand-in library: a token signed for the subject ["1"] is
    resolved to alice, the token that login signs for her is not. *)
Lemma gate_string_and_integer_subject :
  get_current_user demo_key demo_verify
    (create_access_token demo_key demo_sign [("sub", JStr "1")]) db_events
  = (Ok alice, db_events) /\
  get_current_user demo_key demo_verify
    (create_access_token demo_key demo_sign [("sub", JInt 1)]) db_events
  = (Raise credentials_exception, db_events).
Proof. split; reflexivity. Qed.
